(** * Matching Intérim Pro: schema constraints and web client logic

  A shallow embedding of the parts of the repository the specification
  speaks about:

  - [Schema]       the tables, constraints and referential actions of
                   [init_db.sql] that concern the [matchings] table;
  - [Persistence]  the write and read paths of the matching engine, which
                   the repository keeps outside the files embedded here;
  - [Js]           the few JavaScript primitives the client code relies on;
  - [Config]       [frontend/js/config.js];
  - [Upload]       [frontend/js/upload.js] (file validation);
  - [Matching]     [frontend/js/matching.js] (run trigger, progress bar);
  - [Results]      [frontend/js/results.js] (result list and filters);
  - [Sql]          the six tables of [init_db.sql] written to together;
  - [UploadMore]   [frontend/js/upload.js] (preview, slots, sending);
  - [ResultsMore]  [frontend/js/results.js] (colours, pages, summary,
                   contact, loading).

  Definitions come first, the properties after them. *)

From stdpp Require Import gmap strings list fin_maps.
From Stdlib Require Import Ascii QArith Qround Lqa.

#[local] Set Warnings "-register-all,-clear-no-such-hyp".
#[local] Open Scope Z_scope.

(* ===================================================================== *)
(** * init_db.sql                                                         *)
(* ===================================================================== *)

Module Schema.

(** Primary keys are [UUID]s; only their identity matters. *)
Abbreviation uuid := positive.

(** A [NUMERIC(5,2)] column holds a decimal with two fractional digits
    and at most five digits in all.  It is represented by its count of
    hundredths: [8525] stands for [85.25]. *)
Definition numeric_5_2 (k : Z) : bool := (-99999 <=? k) && (k <=? 99999).

(** The value of a [NUMERIC(5,2)] as a rational number. *)
Definition numeric_value (k : Z) : Q := Qmake k 100.

(** A nullable [NUMERIC(5,2)] column. *)
Definition numeric_5_2_null (o : option Z) : bool :=
  match o with
  | None => true
  | Some k => numeric_5_2 k
  end.

(** Rows.  Only key columns and the columns the properties below mention
    are kept; every other column of the script is free data without a
    constraint that involves [matchings]. *)

Record client := { code : string; client_actif : bool }.

Record user := { user_client_id : uuid; email : string }.

Record candidat := { actif : bool; blackliste : bool }.

Record besoin := {
  besoin_client_id : uuid;
  seuil_score_min : Z;
  nb_candidats_souhaites : Z
}.

Record matching := {
  besoin_id : uuid;
  candidat_id : uuid;
  client_id : uuid;
  score_total : Z;
  score_competences : option Z;
  score_localisation : option Z;
  score_disponibilite : option Z;
  score_financier : option Z;
  score_experience : option Z;
  rang : option Z;
  utilise_ia : bool
}.

Record candidature := {
  matching_id : option uuid;
  cand_besoin_id : uuid;
  cand_candidat_id : uuid;
  cand_client_id : uuid
}.

(** A database state: one finite map per table, keyed by the primary
    key [id]. *)
Record db := {
  clients : gmap uuid client;
  users : gmap uuid user;
  candidats : gmap uuid candidat;
  besoins : gmap uuid besoin;
  matchings : gmap uuid matching;
  candidatures : gmap uuid candidature
}.

Definition empty_db : db :=
  {| clients := ∅; users := ∅; candidats := ∅; besoins := ∅;
     matchings := ∅; candidatures := ∅ |}.

Definition with_matchings (ms : gmap uuid matching) (d : db) : db :=
  {| clients := clients d; users := users d; candidats := candidats d;
     besoins := besoins d; matchings := ms;
     candidatures := candidatures d |}.

(** [CHECK (score_total BETWEEN 0 AND 100)], in hundredths. *)
Definition check_score_total (m : matching) : bool :=
  (0 <=? score_total m) && (score_total m <=? 10000).

(** Column types of the six score columns.  The five sub-scores are
    nullable and carry no [CHECK]. *)
Definition check_types (m : matching) : bool :=
  numeric_5_2 (score_total m)
  && numeric_5_2_null (score_competences m)
  && numeric_5_2_null (score_localisation m)
  && numeric_5_2_null (score_disponibilite m)
  && numeric_5_2_null (score_financier m)
  && numeric_5_2_null (score_experience m).

(** The three [REFERENCES] clauses of [matchings]. *)
Definition check_foreign_keys (m : matching) (d : db) : bool :=
  bool_decide (is_Some (besoins d !! besoin_id m))
  && bool_decide (is_Some (candidats d !! candidat_id m))
  && bool_decide (is_Some (clients d !! client_id m)).

(** Rows that hold the pair [(b, c)]: what [UNIQUE(besoin_id,
    candidat_id)] looks at. *)
Definition same_pair (b c : uuid) (km : uuid * matching) : Prop :=
  besoin_id km.2 = b ∧ candidat_id km.2 = c.

#[global] Instance same_pair_dec b c km : Decision (same_pair b c km).
Proof. unfold same_pair. apply _. Defined.

Definition rows_of_pair (b c : uuid) (ms : gmap uuid matching)
  : list (uuid * matching) :=
  filter (same_pair b c) (map_to_list ms).

(** Every constraint a row must pass to be stored, but the two that
    depend on which row it replaces (primary key and [UNIQUE]). *)
Definition row_ok (m : matching) (d : db) : bool :=
  check_score_total m && check_types m && check_foreign_keys m d.

(** [INSERT INTO matchings]: [None] when a constraint rejects the row. *)
Definition insert_matching (id : uuid) (m : matching) (d : db)
  : option db :=
  if bool_decide (matchings d !! id = None)
     && row_ok m d
     && bool_decide (rows_of_pair (besoin_id m) (candidat_id m)
                       (matchings d) = [])
  then Some (with_matchings (<[id := m]> (matchings d)) d)
  else None.

(** [INSERT] into the parent tables. *)
Definition insert_client (id : uuid) (c : client) (d : db) : option db :=
  if bool_decide (clients d !! id = None)
  then Some {| clients := <[id := c]> (clients d); users := users d;
               candidats := candidats d; besoins := besoins d;
               matchings := matchings d;
               candidatures := candidatures d |}
  else None.

Definition insert_candidat (id : uuid) (c : candidat) (d : db)
  : option db :=
  if bool_decide (candidats d !! id = None)
  then Some {| clients := clients d; users := users d;
               candidats := <[id := c]> (candidats d);
               besoins := besoins d; matchings := matchings d;
               candidatures := candidatures d |}
  else None.

Definition insert_besoin (id : uuid) (b : besoin) (d : db) : option db :=
  if bool_decide (besoins d !! id = None)
     && bool_decide (is_Some (clients d !! besoin_client_id b))
  then Some {| clients := clients d; users := users d;
               candidats := candidats d;
               besoins := <[id := b]> (besoins d);
               matchings := matchings d;
               candidatures := candidatures d |}
  else None.

(** ** Referential actions

    [ON DELETE SET NULL] on [candidatures.matching_id]: a candidature
    whose matching has gone keeps its row and loses the reference. *)
Definition set_null_matching (ms : gmap uuid matching) (c : candidature)
  : candidature :=
  match matching_id c with
  | Some k =>
      match ms !! k with
      | Some _ => c
      | None => {| matching_id := None;
                   cand_besoin_id := cand_besoin_id c;
                   cand_candidat_id := cand_candidat_id c;
                   cand_client_id := cand_client_id c |}
      end
  | None => c
  end.

(** Is the need [b] one of the needs of client [c]?  Those needs go with
    the client ([besoins.client_id ... ON DELETE CASCADE]). *)
Definition besoin_of_client (d : db) (c b : uuid) : bool :=
  match besoins d !! b with
  | Some r => bool_decide (besoin_client_id r = c)
  | None => false
  end.

(** [DELETE FROM besoins WHERE id = b]. *)
Definition delete_besoin (b : uuid) (d : db) : db :=
  let ms := filter (λ km, besoin_id km.2 ≠ b) (matchings d) in
  {| clients := clients d; users := users d; candidats := candidats d;
     besoins := delete b (besoins d);
     matchings := ms;
     candidatures :=
       set_null_matching ms <$>
         filter (λ kc, cand_besoin_id kc.2 ≠ b) (candidatures d) |}.

(** [DELETE FROM candidats WHERE id = c]. *)
Definition delete_candidat (c : uuid) (d : db) : db :=
  let ms := filter (λ km, candidat_id km.2 ≠ c) (matchings d) in
  {| clients := clients d; users := users d;
     candidats := delete c (candidats d);
     besoins := besoins d;
     matchings := ms;
     candidatures :=
       set_null_matching ms <$>
         filter (λ kc, cand_candidat_id kc.2 ≠ c) (candidatures d) |}.

(** [DELETE FROM clients WHERE id = c]: users, needs, matchings and
    candidatures of the client go with it, and so does everything that
    hangs on one of its needs. *)
Definition delete_client (c : uuid) (d : db) : db :=
  let ms :=
    filter (λ km, client_id km.2 ≠ c
                  ∧ besoin_of_client d c (besoin_id km.2) = false)
           (matchings d) in
  {| clients := delete c (clients d);
     users := filter (λ ku, user_client_id ku.2 ≠ c) (users d);
     candidats := candidats d;
     besoins := filter (λ kb, besoin_client_id kb.2 ≠ c) (besoins d);
     matchings := ms;
     candidatures :=
       set_null_matching ms <$>
         filter (λ kc, cand_client_id kc.2 ≠ c
                       ∧ besoin_of_client d c (cand_besoin_id kc.2) = false)
                (candidatures d) |}.

(** [DELETE FROM users WHERE id = u]: no table kept here references
    [users]. *)
Definition delete_user (u : uuid) (d : db) : db :=
  {| clients := clients d; users := delete u (users d);
     candidats := candidats d; besoins := besoins d;
     matchings := matchings d; candidatures := candidatures d |}.

(** [DELETE FROM candidatures WHERE id = k]: [matchings] does not
    reference [candidatures]. *)
Definition delete_candidature (k : uuid) (d : db) : db :=
  {| clients := clients d; users := users d; candidats := candidats d;
     besoins := besoins d; matchings := matchings d;
     candidatures := delete k (candidatures d) |}.

(** The deletion of one row of a table other than [matchings]. *)
Inductive deletion :=
  | DeleteClient (c : uuid)
  | DeleteUser (u : uuid)
  | DeleteCandidat (c : uuid)
  | DeleteBesoin (b : uuid)
  | DeleteCandidature (k : uuid).

Definition exec_delete (x : deletion) (d : db) : db :=
  match x with
  | DeleteClient c => delete_client c d
  | DeleteUser u => delete_user u d
  | DeleteCandidat c => delete_candidat c d
  | DeleteBesoin b => delete_besoin b d
  | DeleteCandidature k => delete_candidature k d
  end.

(** ** Integrity properties of a state *)

(** [UNIQUE(besoin_id, candidat_id)]. *)
Definition unique_pairs (ms : gmap uuid matching) : Prop :=
  ∀ k1 k2 m1 m2,
    ms !! k1 = Some m1 → ms !! k2 = Some m2 →
    besoin_id m1 = besoin_id m2 → candidat_id m1 = candidat_id m2 →
    k1 = k2.

(** The foreign keys of [matchings] and [besoins] point at rows. *)
Definition foreign_keys_hold (d : db) : Prop :=
  (∀ k m, matchings d !! k = Some m →
     is_Some (besoins d !! besoin_id m)
     ∧ is_Some (candidats d !! candidat_id m)
     ∧ is_Some (clients d !! client_id m))
  ∧ (∀ k b, besoins d !! k = Some b →
       is_Some (clients d !! besoin_client_id b)).

End Schema.

(* ===================================================================== *)
(** * The engine's side of the store                                      *)
(* ===================================================================== *)

Module Persistence.
Import Schema.

(** Does the match carry the tenant of its need? *)
Definition tenant_of_need (m : matching) (d : db) : bool :=
  match besoins d !! besoin_id m with
  | Some need => bool_decide (client_id m = besoin_client_id need)
  | None => false
  end.

(** Modelled from the spec: [upsert_match], the write path of the
    persistence adapter (the Python service that owns it is not among the
    embedded files).  The spec asks for an upsert per (need, candidate)
    "keyed by the uniqueness invariant, so results are replaced in place
    rather than accumulated", and for an engine that "never accepts or
    returns a MatchResult whose tenant identifier diverges from its
    Need's tenant".  A row that exists for the pair keeps its primary key
    and takes the new values; otherwise the row is inserted under the
    key [fresh].  The constraints of the schema apply either way. *)
Definition upsert_match (fresh : uuid) (m : matching) (d : db)
  : option db :=
  if tenant_of_need m d then
    match rows_of_pair (besoin_id m) (candidat_id m) (matchings d) with
    | (k, _) :: _ =>
        if row_ok m d
        then Some (with_matchings (<[k := m]> (matchings d)) d)
        else None
    | [] => insert_matching fresh m d
    end
  else None.

(** Modelled from the spec: [list_matches], the read path, "always
    scoped by tenant identifier": the matches of need [need] as seen by
    tenant [tenant]. *)
Definition list_matches (tenant need : uuid) (d : db)
  : gmap uuid matching :=
  filter (λ km, client_id km.2 = tenant ∧ besoin_id km.2 = need)
         (matchings d).

(** Modelled from the spec: every match a tenant can see. *)
Definition matches_of_tenant (tenant : uuid) (d : db)
  : gmap uuid matching :=
  filter (λ km, client_id km.2 = tenant) (matchings d).

(** What can happen to the store.  [InsertMatching] is a plain SQL
    [INSERT], open to any writer; [UpsertMatch] is the engine's path. *)
Inductive statement :=
  | InsertClient (id : uuid) (c : client)
  | InsertCandidat (id : uuid) (c : candidat)
  | InsertBesoin (id : uuid) (b : besoin)
  | InsertMatching (id : uuid) (m : matching)
  | UpsertMatch (fresh : uuid) (m : matching)
  | Delete (x : deletion).

Definition try_exec (s : statement) (d : db) : option db :=
  match s with
  | InsertClient id c => insert_client id c d
  | InsertCandidat id c => insert_candidat id c d
  | InsertBesoin id b => insert_besoin id b d
  | InsertMatching id m => insert_matching id m d
  | UpsertMatch fresh m => upsert_match fresh m d
  | Delete x => Some (exec_delete x d)
  end.

(** A rejected statement leaves the state as it was. *)
Definition exec (s : statement) (d : db) : db :=
  default d (try_exec s d).

Definition run (ss : list statement) (d : db) : db :=
  foldl (λ acc s, exec s acc) d ss.

(** Statements of the engine: matchings are written through
    [upsert_match] only. *)
Definition by_engine (s : statement) : bool :=
  match s with
  | InsertMatching _ _ => false
  | _ => true
  end.

(** The tenant anchor: a match carries the tenant of its need. *)
Definition tenant_consistent (d : db) : Prop :=
  ∀ k m, matchings d !! k = Some m →
    ∃ need, besoins d !! besoin_id m = Some need
            ∧ client_id m = besoin_client_id need.

End Persistence.

(* ===================================================================== *)
(** * JavaScript primitives used by the client                            *)
(* ===================================================================== *)

Module Js.

(** Values that travel as JSON, and [undefined].  Numbers in the
    payloads modelled here are counts, identifiers and milliseconds:
    integers. *)
Inductive jsval :=
  | JUndefined
  | JNull
  | JBool (b : bool)
  | JNum (z : Z)
  | JStr (s : string)
  | JArr (l : list jsval)
  | JObj (o : gmap string jsval).

(** [ToBoolean]. *)
Definition truthy (v : jsval) : bool :=
  match v with
  | JUndefined | JNull => false
  | JBool b => b
  | JNum z => negb (z =? 0)
  | JStr s => negb (bool_decide (s = ""))
  | JArr _ | JObj _ => true
  end.

(** [a || b]. *)
Definition js_or (a b : jsval) : jsval := if truthy a then a else b.

(** [o.key] on an object; reading a missing property gives
    [undefined].  Reading a property of [null] or [undefined] throws:
    [None]. *)
Definition get (v : jsval) (key : string) : option jsval :=
  match v with
  | JUndefined | JNull => None
  | JObj o => Some (default JUndefined (o !! key))
  | _ => Some JUndefined
  end.

(** [String.prototype.toLowerCase], on the ASCII letters.  Code points
    outside ASCII never map to one of the letters of an allowed
    extension, so leaving their bytes alone does not change any
    comparison made below. *)
Definition lower_ascii (c : ascii) : ascii :=
  let n := N_of_ascii c in
  if ((65 <=? n) && (n <=? 90))%N then ascii_of_N (n + 32) else c.

Fixpoint toLowerCase (s : string) : string :=
  match s with
  | EmptyString => EmptyString
  | String c rest => String (lower_ascii c) (toLowerCase rest)
  end.

(** [s.split(sep)] for a one-character separator: never empty. *)
Fixpoint split (sep : ascii) (s : string) : list string :=
  match s with
  | EmptyString => [EmptyString]
  | String c rest =>
      match split sep rest with
      | seg :: segs =>
          if bool_decide (c = sep) then EmptyString :: seg :: segs
          else String c seg :: segs
      | [] => [EmptyString]
      end
  end.

(** [a.pop()] read for its value: the last element, [None] for
    [undefined] on an empty array. *)
Definition pop (l : list string) : option string := last l.

(** [Math.round]: the nearest integer, halves going up.  JavaScript
    numbers are taken as exact rationals here. *)
Definition Math_round (x : Q) : Z := Qfloor (x + (1 # 2)).

(** ** [parseInt(s)] without a radix argument *)

Definition is_space (c : ascii) : bool :=
  let n := N_of_ascii c in
  ((n =? 32) || ((9 <=? n) && (n <=? 13)))%N.

Fixpoint skip_spaces (s : string) : string :=
  match s with
  | String c rest => if is_space c then skip_spaces rest else s
  | EmptyString => s
  end.

(** The value of a digit in the given radix, if it is one. *)
Definition digit_value (radix : Z) (c : ascii) : option Z :=
  let n := Z.of_N (N_of_ascii c) in
  let v :=
    if (48 <=? n) && (n <=? 57) then Some (n - 48)
    else if (97 <=? n) && (n <=? 122) then Some (n - 87)
    else if (65 <=? n) && (n <=? 90) then Some (n - 55)
    else None in
  match v with
  | Some d => if d <? radix then Some d else None
  | None => None
  end.

(** Reads the longest prefix of digits; [acc] is [None] until a digit
    has been read. *)
Fixpoint read_digits (radix : Z) (acc : option Z) (s : string)
  : option Z :=
  match s with
  | String c rest =>
      match digit_value radix c with
      | Some d => read_digits radix (Some (default 0 acc * radix + d)) rest
      | None => acc
      end
  | EmptyString => acc
  end.

Definition strip_hex_prefix (s : string) : option string :=
  match s with
  | String "0" (String "x" rest) | String "0" (String "X" rest) =>
      Some rest
  | _ => None
  end.

Definition parse_magnitude (s : string) : option Z :=
  match strip_hex_prefix s with
  | Some rest => read_digits 16 None rest
  | None => read_digits 10 None s
  end.

(** [None] stands for [NaN]. *)
Definition parseInt (s : string) : option Z :=
  match skip_spaces s with
  | String "-" rest => Z.opp <$> parse_magnitude rest
  | String "+" rest => parse_magnitude rest
  | t => parse_magnitude t
  end.

End Js.

(* ===================================================================== *)
(** * frontend/js/config.js                                               *)
(* ===================================================================== *)

Module Config.

(** Tailles max fichiers upload (MB). *)
Definition MAX_FILE_SIZE : Z := 10.

(** Extensions acceptées. *)
Definition ALLOWED_EXTENSIONS : list string := [".csv"; ".xlsx"; ".xls"].

Definition ITEMS_PER_PAGE : Z := 20.

Definition FILE_TOO_LARGE : string :=
  "Le fichier est trop volumineux (max {size} MB)".

Definition FILE_INVALID_TYPE : string := "Type de fichier non supporté".

Definition RUN_MATCHING : string := "/matchings/run".

End Config.

(** What the client code does to the page and to the network, as far as
  the properties below need to tell the actions apart. *)
Inductive effect :=
| Toast (message type : string)
| ToastSummary (besoins_traites matchings_crees : Js.jsval)
               (duree_ms : option Js.jsval)
| ShowFilePreview (type : string)
| UpdateUploadButton (disabled : bool)
| PreviewFileContent (type : string)
| Alert
| Navigate (page : string)
| Post (endpoint : string) (body : Js.jsval)
| GetPreviewData.

(* ===================================================================== *)
(** * frontend/js/upload.js                                               *)
(* ===================================================================== *)

Module Upload.
Import Js.

(** A [File]: its name and its size in bytes. *)
Record file := { name : string; size : N }.

Record UploadManager := {
  files : gmap string (option file);
  uploadedData : gmap string (option jsval)
}.

(** The constructor. *)
Definition new : UploadManager :=
  {| files := {[ "candidats" := None; "besoins" := None ]};
     uploadedData := {[ "candidats" := None; "besoins" := None ]} |}.

(** ['.' + file.name.split('.').pop().toLowerCase()] *)
Definition extension (f : file) : string :=
  "." +:+ toLowerCase (default "" (pop (split "." (name f)))).

(** [file.size / (1024 * 1024)] *)
Definition sizeMB (f : file) : Q :=
  inject_Z (Z.of_N (size f)) / inject_Z (1024 * 1024).

(** [config.MESSAGES.FILE_TOO_LARGE.replace('{size}', MAX_FILE_SIZE)] *)
Definition too_large_message : string :=
  "Le fichier est trop volumineux (max 10 MB)".

(** [validateFile(file)]: the verdict and the toast it raises. *)
Definition validateFile (f : file) : bool * list effect :=
  if negb (bool_decide (extension f ∈ Config.ALLOWED_EXTENSIONS))
  then (false, [Toast Config.FILE_INVALID_TYPE "error"])
  else if negb (Qle_bool (sizeMB f) (inject_Z Config.MAX_FILE_SIZE))
  then (false, [Toast too_large_message "error"])
  else (true, []).

(** [updateUploadButton()]: disabled unless both files are there. *)
Definition upload_disabled (fs : gmap string (option file)) : bool :=
  negb (bool_decide (is_Some (mjoin (fs !! "candidats"))))
  || negb (bool_decide (is_Some (mjoin (fs !! "besoins")))).

(** [handleFileSelect(file, type)] *)
Definition handleFileSelect (f : file) (type : string)
    (st : UploadManager) : UploadManager * list effect :=
  let '(ok, toasts) := validateFile f in
  if negb ok then (st, toasts)
  else
    let fs := <[type := Some f]> (files st) in
    ({| files := fs; uploadedData := uploadedData st |},
     toasts ++ [ShowFilePreview type;
                UpdateUploadButton (upload_disabled fs);
                PreviewFileContent type]).

End Upload.

(* ===================================================================== *)
(** * frontend/js/matching.js                                             *)
(* ===================================================================== *)

Module Matching.
Import Js.

(** [this.config].  [besoin_id] is [null] or the identifier picked in
    the select box. *)
Record config := {
  besoin_id : jsval;
  score_min : Z;
  nb_candidats : Z;
  use_ai : bool
}.

Record MatchingManager := {
  mconfig : config;
  isRunning : bool;
  results : jsval;
  progressTimer : option nat
}.

(** The constructor. *)
Definition default_config : config :=
  {| besoin_id := JNull; score_min := 40; nb_candidats := 5;
     use_ai := false |}.

Definition new : MatchingManager :=
  {| mconfig := default_config; isRunning := false; results := JNull;
     progressTimer := None |}.

(** The elements of the page [runMatching] writes to. *)
Record dom := {
  runBtn_disabled : bool;
  progress_hidden : bool;
  progress_width : Z;
  progress_text : string
}.

(** A timer made by [setInterval]: its period, how often it has fired,
    and the [currentStep] its callback closes over. *)
Record interval := {
  delay_ms : Z;
  fired : nat;
  currentStep : nat
}.

(** The manager together with what surrounds it: the page, the live
    timers, the [POST]s that wait for their response, what the user has
    been told, and the progress steps written so far, each with the
    time since its timer was set. *)
Record world := {
  mgr : MatchingManager;
  page : dom;
  intervals : gmap nat interval;
  next_timer : nat;
  in_flight : list jsval;
  told : list effect;
  shown : list (Z * Z * string)
}.

Definition init : world :=
  {| mgr := new;
     page := {| runBtn_disabled := false; progress_hidden := true;
                progress_width := 0; progress_text := "" |};
     intervals := ∅; next_timer := 0; in_flight := []; told := [];
     shown := [] |}.

Definition tell (e : effect) (w : world) : world :=
  {| mgr := mgr w; page := page w; intervals := intervals w;
     next_timer := next_timer w; in_flight := in_flight w;
     told := told w ++ [e]; shown := shown w |}.

(** The [steps] array of [simulateProgress]. *)
Definition steps : list (Z * string) :=
  [ (10, "Initialisation...");
    (25, "Chargement des candidats...");
    (40, "Chargement des besoins...");
    (60, "Analyse des compétences...");
    (75, "Calcul des scores...");
    (90, "Génération des résultats...");
    (95, "Finalisation...") ].

(** [simulateProgress(progressFill, progressText)]: sets the timer and
    keeps its handle in [this.progressTimer]. *)
Definition simulateProgress (w : world) : world :=
  let id := next_timer w in
  {| mgr := {| mconfig := mconfig (mgr w); isRunning := isRunning (mgr w);
               results := results (mgr w); progressTimer := Some id |};
     page := page w;
     intervals :=
       <[id := {| delay_ms := 1500; fired := 0; currentStep := 0 |}]>
         (intervals w);
     next_timer := S id; in_flight := in_flight w; told := told w;
     shown := shown w |}.

(** One firing of the timer [id]: the arrow function given to
    [setInterval]. *)
Definition tick (id : nat) (w : world) : world :=
  match intervals w !! id with
  | None => w
  | Some t =>
      let at_ms := delay_ms t * Z.of_nat (S (fired t)) in
      match steps !! currentStep t with
      | Some (percent, text) =>
          {| mgr := mgr w;
             page := {| runBtn_disabled := runBtn_disabled (page w);
                        progress_hidden := progress_hidden (page w);
                        progress_width := percent;
                        progress_text := text |};
             intervals :=
               <[id := {| delay_ms := delay_ms t; fired := S (fired t);
                          currentStep := S (currentStep t) |}]>
                 (intervals w);
             next_timer := next_timer w; in_flight := in_flight w;
             told := told w;
             shown := shown w ++ [(at_ms, percent, text)] |}
      | None =>
          {| mgr := mgr w; page := page w;
             intervals :=
               <[id := {| delay_ms := delay_ms t; fired := S (fired t);
                          currentStep := currentStep t |}]>
                 (intervals w);
             next_timer := next_timer w; in_flight := in_flight w;
             told := told w; shown := shown w |}
      end
  end.

(** [clearInterval(this.progressTimer)] *)
Definition clearProgressTimer (w : world) : world :=
  match progressTimer (mgr w) with
  | None => w
  | Some id =>
      {| mgr := mgr w; page := page w;
         intervals := delete id (intervals w);
         next_timer := next_timer w; in_flight := in_flight w;
         told := told w; shown := shown w |}
  end.

(** The [requestData] literal of [runMatching]. *)
Definition requestData (c : config) : jsval :=
  JObj {[ "besoin_id" := js_or (besoin_id c) JNull;
          "use_ai" := JBool (use_ai c);
          "force_refresh" := JBool true;
          "config" := JObj {[ "score_min" := JNum (score_min c);
                              "nb_candidats" := JNum (nb_candidats c) ]} ]}.

Definition already_running : effect :=
  Toast "Un matching est déjà en cours" "warning".

(** [runMatching()], up to its [await]: what one click on the run
    button does before control returns to the browser.  [confirmed] is
    the user's answer to the [confirm] dialog. *)
Definition runMatching (confirmed : bool) (w : world) : world :=
  if isRunning (mgr w) then tell already_running w
  else if negb confirmed then w
  else
    let w1 :=
      {| mgr := {| mconfig := mconfig (mgr w); isRunning := true;
                   results := results (mgr w);
                   progressTimer := progressTimer (mgr w) |};
         page := {| runBtn_disabled := true; progress_hidden := false;
                    progress_width := progress_width (page w);
                    progress_text := progress_text (page w) |};
         intervals := intervals w; next_timer := next_timer w;
         in_flight := in_flight w; told := told w; shown := shown w |} in
    let w2 := simulateProgress w1 in
    let body := requestData (mconfig (mgr w2)) in
    {| mgr := mgr w2; page := page w2; intervals := intervals w2;
       next_timer := next_timer w2;
       in_flight := in_flight w2 ++ [body];
       told := told w2 ++ [Post Config.RUN_MATCHING body];
       shown := shown w2 |}.

(** What the summary toast reads in the response:
    [response.besoins_processed || 0], [response.matchings_created || 0]
    and [response.duration_ms], shown as seconds when it is truthy and as
    ['N/A'] otherwise.  [None]: reading a property of [null] or
    [undefined] throws. *)
Definition summary (response : jsval)
  : option (jsval * jsval * option jsval) :=
  b ← get response "besoins_processed";
  m ← get response "matchings_created";
  t ← get response "duration_ms";
  Some (js_or b (JNum 0), js_or m (JNum 0),
        if truthy t then Some t else None).

(** How the [await api.post(...)] ends. *)
Inductive outcome :=
  | Resolved (response : jsval)
  | Rejected (message : string).

(** The [catch] block. *)
Definition on_error (message : string) (w : world) : world :=
  let w1 := tell (Toast ("Erreur lors du matching: " +:+ message) "error")
              w in
  let w2 := clearProgressTimer w1 in
  {| mgr := mgr w2;
     page := {| runBtn_disabled := runBtn_disabled (page w2);
                progress_hidden := progress_hidden (page w2);
                progress_width := 0; progress_text := "Erreur" |};
     intervals := intervals w2; next_timer := next_timer w2;
     in_flight := in_flight w2; told := told w2; shown := shown w2 |}.

(** The [finally] block, without its two-second timeout that hides the
    bar. *)
Definition on_finally (w : world) : world :=
  {| mgr := {| mconfig := mconfig (mgr w); isRunning := false;
               results := results (mgr w);
               progressTimer := progressTimer (mgr w) |};
     page := {| runBtn_disabled := false;
                progress_hidden := progress_hidden (page w);
                progress_width := progress_width (page w);
                progress_text := progress_text (page w) |};
     intervals := intervals w; next_timer := next_timer w;
     in_flight := in_flight w; told := told w; shown := shown w |}.

(** The rest of [runMatching], run when the oldest pending [POST]
    settles.  With nothing pending there is nothing to resume. *)
Definition settle (o : outcome) (w : world) : world :=
  match in_flight w with
  | [] => w
  | _ :: rest =>
      let w0 :=
        {| mgr := mgr w; page := page w; intervals := intervals w;
           next_timer := next_timer w; in_flight := rest;
           told := told w; shown := shown w |} in
      match o with
      | Rejected message => on_finally (on_error message w0)
      | Resolved response =>
          let w1 := clearProgressTimer w0 in
          let w2 :=
            {| mgr := {| mconfig := mconfig (mgr w1);
                         isRunning := isRunning (mgr w1);
                         results := response;
                         progressTimer := progressTimer (mgr w1) |};
               page := {| runBtn_disabled := runBtn_disabled (page w1);
                          progress_hidden := progress_hidden (page w1);
                          progress_width := 100;
                          progress_text := "Matching terminé !" |};
               intervals := intervals w1; next_timer := next_timer w1;
               in_flight := in_flight w1; told := told w1;
               shown := shown w1 |} in
          match summary response with
          | Some (b, m, t) => on_finally (tell (ToastSummary b m t) w2)
          | None => on_finally (on_error "TypeError" w2)
          end
      end
  end.

(** [previewMatching()]: the guard, then two reads and a dialog; the
    manager is not written to. *)
Definition previewMatching (w : world) : world :=
  if isRunning (mgr w) then tell already_running w
  else tell GetPreviewData w.

(** The sliders, the select box and the check box write [this.config];
    [reset()] puts the defaults back. *)
Definition configure (c : config) (w : world) : world :=
  {| mgr := {| mconfig := c; isRunning := isRunning (mgr w);
               results := results (mgr w);
               progressTimer := progressTimer (mgr w) |};
     page := page w; intervals := intervals w;
     next_timer := next_timer w; in_flight := in_flight w;
     told := told w; shown := shown w |}.

(** What can happen on the matching page. *)
Inductive event :=
  | RunClicked (confirmed : bool)
  | PreviewClicked
  | Configure (c : config)
  | Reset
  | Tick (id : nat)
  | Settled (o : outcome).

Definition step (e : event) (w : world) : world :=
  match e with
  | RunClicked confirmed => runMatching confirmed w
  | PreviewClicked => previewMatching w
  | Configure c => configure c w
  | Reset => configure default_config w
  | Tick id => tick id w
  | Settled o => settle o w
  end.

Definition play (es : list event) (w : world) : world :=
  foldl (λ acc e, step e acc) w es.

End Matching.

(* ===================================================================== *)
(** * frontend/js/results.js                                              *)
(* ===================================================================== *)

Module Results.
Import Js.

(** One element of the array served by [/matchings/besoin/{id}], with
    the fields [processMatchings] reads.  [None] stands for a field that
    is missing or [null]; [m_poste] is [m.besoin_info?.poste_recherche].
    [m_score_total] is the number found under [score_total]. *)
Record api_matching := {
  m_id : string;
  m_candidat_id : string;
  m_candidat_nom : option string;
  m_besoin_id : string;
  m_poste : option string;
  m_score_total : Q;
  m_rang : option Z;
  m_telephone : option string;
  m_email : option string;
  m_disponibilite : option string;
  m_experience : option string;
  m_points_forts : list string;
  m_points_faibles : list string
}.

(** One line of the results table. *)
Record result := {
  id : string;
  candidat_id : string;
  candidat_nom : string;
  besoin_id : string;
  poste : string;
  score : Z;
  rang : option Z;
  telephone : string;
  email : string;
  disponibilite : string;
  experience : string;
  points_forts : list string;
  points_faibles : list string;
  status : string
}.

(** [this.filters]: the values of the three select boxes. *)
Record filters := {
  f_score : string;
  f_status : string;
  f_poste : string
}.

Record ResultsManager := {
  results : list result;
  filteredResults : list result;
  currentBesoinId : option string;
  currentPage : Z;
  itemsPerPage : Z;
  rfilters : filters
}.

Definition no_filters : filters :=
  {| f_score := ""; f_status := ""; f_poste := "" |}.

(** The constructor. *)
Definition new : ResultsManager :=
  {| results := []; filteredResults := []; currentBesoinId := None;
     currentPage := 1; itemsPerPage := Config.ITEMS_PER_PAGE;
     rfilters := no_filters |}.

(** [x || fallback] for a string that may be missing: the empty string
    is falsy as well. *)
Definition or_else (x : option string) (fallback : string) : string :=
  match x with
  | Some s => if bool_decide (s = "") then fallback else s
  | None => fallback
  end.

(** [getStatus(score)] *)
Definition getStatus (score : Q) : string :=
  if Qle_bool 90 score then "excellent"
  else if Qle_bool 75 score then "bon"
  else if Qle_bool 50 score then "moyen"
  else "faible".

(** The arrow function of [processMatchings]. *)
Definition process (m : api_matching) : result :=
  {| id := m_id m;
     candidat_id := m_candidat_id m;
     candidat_nom := or_else (m_candidat_nom m)
                       ("Candidat " +:+ m_candidat_id m);
     besoin_id := m_besoin_id m;
     poste := or_else (m_poste m) "N/A";
     score := Math_round (m_score_total m * 100);
     rang := m_rang m;
     telephone := or_else (m_telephone m) "N/A";
     email := or_else (m_email m) "N/A";
     disponibilite := or_else (m_disponibilite m) "N/A";
     experience := or_else (m_experience m) "N/A";
     points_forts := m_points_forts m;
     points_faibles := m_points_faibles m;
     status := getStatus (m_score_total m * 100) |}.

(** [processMatchings(matchings)] *)
Definition processMatchings (ms : list api_matching)
    (st : ResultsManager) : ResultsManager :=
  let rs := process <$> ms in
  {| results := rs; filteredResults := rs;
     currentBesoinId := currentBesoinId st;
     currentPage := currentPage st; itemsPerPage := itemsPerPage st;
     rfilters := rfilters st |}.

(** The predicate given to [filter] in [applyFilters].  A comparison
    with [NaN] is false, so a score filter that does not parse drops
    nothing. *)
Definition keeps (f : filters) (r : result) : bool :=
  (if bool_decide (f_score f = "") then true
   else match parseInt (f_score f) with
        | Some minScore => negb (score r <? minScore)
        | None => true
        end)
  && (bool_decide (f_status f = "")
      || bool_decide (status r = f_status f))
  && (bool_decide (f_poste f = "")
      || bool_decide (poste r = f_poste f)).

(** [applyFilters()] *)
Definition applyFilters (st : ResultsManager) : ResultsManager :=
  {| results := results st;
     filteredResults := filter (λ r, keeps (rfilters st) r = true)
                          (results st);
     currentBesoinId := currentBesoinId st;
     currentPage := 1; itemsPerPage := itemsPerPage st;
     rfilters := rfilters st |}.

(** [clearFilters()] *)
Definition clearFilters (st : ResultsManager) : ResultsManager :=
  {| results := results st; filteredResults := results st;
     currentBesoinId := currentBesoinId st;
     currentPage := currentPage st; itemsPerPage := itemsPerPage st;
     rfilters := no_filters |}.

(** The change handlers of the three select boxes. *)
Definition setScoreFilter (v : string) (st : ResultsManager)
  : ResultsManager :=
  applyFilters
    {| results := results st; filteredResults := filteredResults st;
       currentBesoinId := currentBesoinId st;
       currentPage := currentPage st; itemsPerPage := itemsPerPage st;
       rfilters := {| f_score := v; f_status := f_status (rfilters st);
                      f_poste := f_poste (rfilters st) |} |}.

(** [goToPage(page)] *)
Definition goToPage (p : Z) (st : ResultsManager) : ResultsManager :=
  {| results := results st; filteredResults := filteredResults st;
     currentBesoinId := currentBesoinId st;
     currentPage := p; itemsPerPage := itemsPerPage st;
     rfilters := rfilters st |}.

End Results.

(* ===================================================================== *)
(** * init_db.sql: the remaining writes                                   *)
(* ===================================================================== *)

Module Sql.
Import Schema.

(** [INSERT INTO users]: the primary key and
    [client_id ... REFERENCES clients(id)]. *)
Definition insert_user (id : uuid) (u : user) (d : db) : option db :=
  if bool_decide (users d !! id = None)
     && bool_decide (is_Some (clients d !! user_client_id u))
  then Some {| clients := clients d; users := <[id := u]> (users d);
               candidats := candidats d; besoins := besoins d;
               matchings := matchings d;
               candidatures := candidatures d |}
  else None.

(** The four [REFERENCES] clauses of [candidatures]; [matching_id] may
    be [NULL]. *)
Definition check_candidature_keys (c : candidature) (d : db) : bool :=
  match matching_id c with
  | None => true
  | Some k => bool_decide (is_Some (matchings d !! k))
  end
  && bool_decide (is_Some (besoins d !! cand_besoin_id c))
  && bool_decide (is_Some (candidats d !! cand_candidat_id c))
  && bool_decide (is_Some (clients d !! cand_client_id c)).

(** [INSERT INTO candidatures]. *)
Definition insert_candidature (id : uuid) (c : candidature) (d : db)
  : option db :=
  if bool_decide (candidatures d !! id = None)
     && check_candidature_keys c d
  then Some {| clients := clients d; users := users d;
               candidats := candidats d; besoins := besoins d;
               matchings := matchings d;
               candidatures := <[id := c]> (candidatures d) |}
  else None.

(** The statements of the script's tables kept here: an [INSERT] into
    each of the six, and the [DELETE] of a row of a parent table. *)
Inductive sql :=
  | InsertIntoClients (id : uuid) (c : client)
  | InsertIntoUsers (id : uuid) (u : user)
  | InsertIntoCandidats (id : uuid) (c : candidat)
  | InsertIntoBesoins (id : uuid) (b : besoin)
  | InsertIntoMatchings (id : uuid) (m : matching)
  | InsertIntoCandidatures (id : uuid) (c : candidature)
  | DeleteFrom (x : deletion).

Definition try_sql (s : sql) (d : db) : option db :=
  match s with
  | InsertIntoClients id c => insert_client id c d
  | InsertIntoUsers id u => insert_user id u d
  | InsertIntoCandidats id c => insert_candidat id c d
  | InsertIntoBesoins id b => insert_besoin id b d
  | InsertIntoMatchings id m => insert_matching id m d
  | InsertIntoCandidatures id c => insert_candidature id c d
  | DeleteFrom x => Some (exec_delete x d)
  end.

(** A statement that breaks a constraint is rolled back. *)
Definition exec_sql (s : sql) (d : db) : db := default d (try_sql s d).

Definition run_sql (ss : list sql) (d : db) : db :=
  foldl (λ acc s, exec_sql s acc) d ss.

(** Every [REFERENCES] clause of the six tables points at a row. *)
Definition references_hold (d : db) : Prop :=
  foreign_keys_hold d
  ∧ (∀ k u, users d !! k = Some u →
       is_Some (clients d !! user_client_id u))
  ∧ (∀ k c, candidatures d !! k = Some c →
       (∀ mk, matching_id c = Some mk → is_Some (matchings d !! mk))
       ∧ is_Some (besoins d !! cand_besoin_id c)
       ∧ is_Some (candidats d !! cand_candidat_id c)
       ∧ is_Some (clients d !! cand_client_id c)).


(** No matching, no candidature, with the property [P]. *)
Definition no_matching_of (P : matching → Prop) (d : db) : Prop :=
  ∀ k m, matchings d !! k = Some m → ¬ P m.

Definition no_candidature_of (P : candidature → Prop) (d : db) : Prop :=
  ∀ k c, candidatures d !! k = Some c → ¬ P c.

End Sql.

(* ===================================================================== *)
(** * frontend/js/upload.js: preview, removal, upload                     *)
(* ===================================================================== *)

Module UploadMore.
Import Js Upload.


(** [String.prototype.trim], on the ASCII white space. *)
Fixpoint trimEnd (s : string) : string :=
  match s with
  | EmptyString => EmptyString
  | String c rest =>
      match trimEnd rest with
      | EmptyString => if is_space c then EmptyString
                       else String c EmptyString
      | r => String c r
      end
  end.

Definition trim (s : string) : string := trimEnd (skip_spaces s).

(** [s.split(/[,;]/)] and the like: cut at every character of a
    class. *)
Fixpoint split_where (sep : ascii → bool) (s : string) : list string :=
  match s with
  | EmptyString => [EmptyString]
  | String c rest =>
      match split_where sep rest with
      | seg :: segs =>
          if sep c then EmptyString :: seg :: segs
          else String c seg :: segs
      | [] => [EmptyString]
      end
  end.

Definition comma_or_semicolon (c : ascii) : bool :=
  bool_decide (c = ","%char) || bool_decide (c = ";"%char).

(** [s.endsWith(suffix)] *)
Fixpoint endsWith (s suffix : string) : bool :=
  bool_decide (s = suffix)
  || match s with
     | String _ rest => endsWith rest suffix
     | EmptyString => false
     end.

(** [content.split('\n').filter(line => line.trim())] *)
Definition nonblank_lines (content : string) : list string :=
  filter (λ line, trim line ≠ "") (split "010" content).

(** [row[header] = value] on an object literal: a property named
    [__proto__] is not created by an assignment of a string. *)
Definition set_prop (key value : string) (row : gmap string string)
  : gmap string string :=
  if bool_decide (key = "__proto__") then row else <[key := value]> row.

(** [values[index] ? values[index].trim() : ''] *)
Definition cell (values : list string) (index : nat) : string :=
  match values !! index with
  | Some v => if bool_decide (v = "") then "" else trim v
  | None => ""
  end.

(** The [headers.forEach] that fills a row, from [index] on. *)
Fixpoint fill_row (headers : list string) (index : nat)
    (values : list string) (row : gmap string string)
  : gmap string string :=
  match headers with
  | [] => row
  | header :: rest =>
      fill_row rest (S index) values
        (set_prop header (cell values index) row)
  end.

(** The header names of a content with at least one line. *)
Definition headers_of (lines : list string) : list string :=
  trim <$> split_where comma_or_semicolon (default "" (head lines)).

(** [parseCSV(content)]: the first five data lines, each as an object
    from header to cell. *)
Definition parseCSV (content : string) : list (gmap string string) :=
  let lines := nonblank_lines content in
  if (length lines <? 2)%nat then []
  else
    let headers := headers_of lines in
    (λ line, fill_row headers 0 (split_where comma_or_semicolon line) ∅)
      <$> take 5 (drop 1 lines).

(** [parseFileContent(content, filename)]: [None] stands for [null]. *)
Definition parseFileContent (content filename : string)
  : option (list (gmap string string)) :=
  if endsWith filename ".csv" then Some (parseCSV content) else None.

(** [previewFileContent]: is [showDataPreview] called? *)
Definition preview_shown (content filename : string) : bool :=
  match parseFileContent content filename with
  | Some (_ :: _) => true
  | _ => false
  end.









End UploadMore.

(* ===================================================================== *)
(** * frontend/js/results.js: table, pages, summary, contact              *)
(* ===================================================================== *)

Module ResultsMore.
Import Js Results.

(** [getScoreColor(score)] of results.js. *)
Definition getScoreColor (score : Q) : string :=
  if Qle_bool 90 score then "#22c55e"
  else if Qle_bool 75 score then "#3b82f6"
  else if Qle_bool 50 score then "#f59e0b"
  else "#ef4444".

(** [config.SCORE_COLORS] *)
Record score_color := { sc_min : Z; sc_color : string; sc_label : string }.

Definition EXCELLENT : score_color :=
  {| sc_min := 90; sc_color := "#22c55e"; sc_label := "Excellent" |}.
Definition BON : score_color :=
  {| sc_min := 75; sc_color := "#3b82f6"; sc_label := "Bon" |}.
Definition MOYEN : score_color :=
  {| sc_min := 50; sc_color := "#f59e0b"; sc_label := "Moyen" |}.
Definition FAIBLE : score_color :=
  {| sc_min := 0; sc_color := "#ef4444"; sc_label := "Faible" |}.

(** [getScoreColor(score)] of app.js. *)
Definition app_getScoreColor (score : Q) : score_color :=
  if Qle_bool 90 score then EXCELLENT
  else if Qle_bool 75 score then BON
  else if Qle_bool 50 score then MOYEN
  else FAIBLE.

(** [a.slice(start, end)] *)
Definition slice {A} (start stop : Z) (l : list A) : list A :=
  let len := Z.of_nat (length l) in
  let k := if start <? 0 then Z.max (len + start) 0 else Z.min start len in
  let final := if stop <? 0 then Z.max (len + stop) 0 else Z.min stop len in
  take (Z.to_nat (final - k)) (drop (Z.to_nat k) l).

(** The lines [updateResultsDisplay] puts in the table. *)
Definition pageResults (st : ResultsManager) : list result :=
  let start := (currentPage st - 1) * itemsPerPage st in
  slice start (start + itemsPerPage st) (filteredResults st).

(** [Math.ceil(this.filteredResults.length / this.itemsPerPage)] *)
Definition totalPages (st : ResultsManager) : Z :=
  Qceiling (inject_Z (Z.of_nat (length (filteredResults st)))
            / inject_Z (itemsPerPage st)).




(** The average [updateSummary] shows. *)
Definition average (st : ResultsManager) : Z :=
  match filteredResults st with
  | [] => 0
  | rs =>
      Math_round (inject_Z (foldl (λ sum r, sum + score r) 0 rs)
                  / inject_Z (Z.of_nat (length rs)))
  end.

(** [[...new Set(xs)]]: the values in the order they first occur. *)
Definition in_order_of_first_occurrence (xs : list string) : list string :=
  foldl (λ seen x, if bool_decide (x ∈ seen) then seen else seen ++ [x])
    [] xs.

(** The options [updateFiltersOptions] offers for the post. *)
Definition poste_options (st : ResultsManager) : list string :=
  in_order_of_first_occurrence (poste <$> results st).

(** The change handlers of the status and of the post select boxes. *)
Definition with_filters (f : filters) (st : ResultsManager)
  : ResultsManager :=
  {| results := results st; filteredResults := filteredResults st;
     currentBesoinId := currentBesoinId st;
     currentPage := currentPage st; itemsPerPage := itemsPerPage st;
     rfilters := f |}.

Definition setStatusFilter (v : string) (st : ResultsManager)
  : ResultsManager :=
  applyFilters
    (with_filters {| f_score := f_score (rfilters st); f_status := v;
                     f_poste := f_poste (rfilters st) |} st).

Definition setPosteFilter (v : string) (st : ResultsManager)
  : ResultsManager :=
  applyFilters
    (with_filters {| f_score := f_score (rfilters st);
                     f_status := f_status (rfilters st);
                     f_poste := v |} st).

(** [showCandidateDetails(matchingId)]: the line that becomes
    [this.currentCandidate], if there is one. *)
Definition showCandidateDetails (matchingId : string)
    (st : ResultsManager) : option result :=
  snd <$> list_find (λ r, id r = matchingId) (results st).

(** Where [contactCandidate] sends the browser. *)
Inductive contact :=
  | Mailto (address subject : string)
  | Tel (number : string)
  | Unavailable.

(** [contactCandidate(method)]; [None]: no candidate is open, nothing
    happens. *)
Definition contactCandidate (method : string)
    (currentCandidate : option result) : option contact :=
  match currentCandidate with
  | None => None
  | Some r =>
      if bool_decide (method = "email")
         && negb (bool_decide (email r = "N/A"))
      then Some (Mailto (email r) ("Opportunité: " +:+ poste r))
      else if bool_decide (method = "phone")
              && negb (bool_decide (telephone r = "N/A"))
      then Some (Tel (telephone r))
      else Some Unavailable
  end.

(** A need, as [/besoins] serves it, with what [loadAllResults]
    reads. *)
Record api_besoin := {
  b_id : string;
  b_poste_recherche : option string;
  b_nb_matchings : Z
}.

(** [m.besoin_info = besoin] *)
Definition with_besoin_info (b : api_besoin) (m : api_matching)
  : api_matching :=
  {| m_id := m_id m; m_candidat_id := m_candidat_id m;
     m_candidat_nom := m_candidat_nom m; m_besoin_id := m_besoin_id m;
     m_poste := b_poste_recherche b;
     m_score_total := m_score_total m; m_rang := m_rang m;
     m_telephone := m_telephone m; m_email := m_email m;
     m_disponibilite := m_disponibilite m;
     m_experience := m_experience m;
     m_points_forts := m_points_forts m;
     m_points_faibles := m_points_faibles m |}.

(** What one turn of the loop of [loadAllResults] pushes. [fetch] is
    the answer of [/matchings/besoin/{id}], [None] when the request
    fails. *)
Definition matchings_of (fetch : string → option (list api_matching))
    (b : api_besoin) : list api_matching :=
  if 0 <? b_nb_matchings b then
    match fetch (b_id b) with
    | Some ms => with_besoin_info b <$> ms
    | None => []
    end
  else [].

(** [loadAllResults()]; [besoins] is [None] when the list of needs
    cannot be read. *)
Definition loadAllResults (besoins : option (list api_besoin))
    (fetch : string → option (list api_matching))
    (st : ResultsManager) : ResultsManager :=
  match besoins with
  | Some bs => processMatchings (bs ≫= matchings_of fetch) st
  | None =>
      {| results := []; filteredResults := [];
         currentBesoinId := currentBesoinId st;
         currentPage := currentPage st; itemsPerPage := itemsPerPage st;
         rfilters := rfilters st |}
  end.

End ResultsMore.

(* ===================================================================== *)
(** * Vocabulary of the properties, and data to try them on              *)
(* ===================================================================== *)

Module StoreData.
Import Schema Persistence.

(** A few rows to try the statements on. *)
Definition client_a : client := {| code := "alpha"; client_actif := true |}.
Definition client_b : client := {| code := "beta"; client_actif := true |}.
Definition worker : candidat := {| actif := true; blackliste := false |}.

Definition need_of (c : uuid) : besoin :=
  {| besoin_client_id := c; seuil_score_min := 40;
     nb_candidats_souhaites := 5 |}.

Definition scored (b c cl : uuid) (total : Z) (r : Z) : matching :=
  {| besoin_id := b; candidat_id := c; client_id := cl;
     score_total := total;
     score_competences := None; score_localisation := None;
     score_disponibilite := None; score_financier := None;
     score_experience := None; rang := Some r; utilise_ia := false |}.

(** Two tenants, one need of tenant 1, one candidate, and their match
    as the engine stores it. *)
Definition one_match : list statement :=
  [ InsertClient 1 client_a; InsertClient 2 client_b;
    InsertCandidat 20 worker; InsertBesoin 10 (need_of 1);
    UpsertMatch 30 (scored 10 20 1 6200 1) ].

(** The same, with the match written by a plain [INSERT] that names
    tenant 2. *)
Definition foreign_match : list statement :=
  [ InsertClient 1 client_a; InsertClient 2 client_b;
    InsertCandidat 20 worker; InsertBesoin 10 (need_of 1);
    InsertMatching 30 (scored 10 20 2 6200 1) ].

End StoreData.

Module RunProps.
Import Js Matching.

(** One request waits for its response exactly while [isRunning] is
    set. *)
Definition flag_matches_requests (w : world) : Prop :=
  length (in_flight w) = if isRunning (mgr w) then 1%nat else 0%nat.

(** The requests a world has told about all come from [requestData]. *)
Definition posts_from_requestData (l : list effect) : Prop :=
  ∀ endpoint body, Post endpoint body ∈ l →
    endpoint = Config.RUN_MATCHING ∧ ∃ c, body = requestData c.

(** The member [key] of a response object. *)
Definition member (o : gmap string jsval) (key : string) : jsval :=
  default JUndefined (o !! key).

(** A response in the words of the code, and the same run reported in
    the words of the specification. *)
Definition response_fr : gmap string jsval :=
  {[ "besoins_processed" := JNum 3; "matchings_created" := JNum 7;
     "duration_ms" := JNum 1200 ]}.

Definition response_en : gmap string jsval :=
  {[ "needs_processed" := JNum 3; "matchings_created" := JNum 7;
     "duration_ms" := JNum 1200;
     "failures" := JArr [] ]}.






End RunProps.

Module UploadProps.

(** No dot in the string. *)
Fixpoint dotless s : bool :=
  match s with
  | EmptyString => true
  | String c rest => negb (bool_decide (c = "."%char)) && dotless rest
  end.

End UploadProps.

Module ResultsData.
Import Js Results.

(** Three lines of the results table. *)
Definition line (ident : string) (s : Z) (stat : string) : result :=
  {| id := ident; candidat_id := "c"; candidat_nom := "Candidat c";
     besoin_id := "b"; poste := "Cariste"; score := s; rang := None;
     telephone := "N/A"; email := "N/A"; disponibilite := "N/A";
     experience := "N/A"; points_forts := []; points_faibles := [];
     status := stat |}.

Definition three_lines : ResultsManager :=
  {| results := [line "m1" 92 "excellent"; line "m2" 60 "moyen";
                 line "m3" 75 "bon"];
     filteredResults := [line "m2" 60 "moyen"];
     currentBesoinId := None; currentPage := 3; itemsPerPage := 20;
     rfilters := {| f_score := "75"; f_status := ""; f_poste := "" |} |}.




End ResultsData.

Module SqlData.
Import Schema Sql StoreData.

Definition application (mk : option uuid) (b c cl : uuid) : candidature :=
  {| matching_id := mk; cand_besoin_id := b; cand_candidat_id := c;
     cand_client_id := cl |}.

(** Two clients with a need each, two candidates, a matching per need,
    and two candidatures: one for the need of its matching, one that
    names the matching of the other need. *)
Definition two_needs : list sql :=
  [ InsertIntoClients 1 client_a; InsertIntoClients 2 client_b;
    InsertIntoUsers 5 {| user_client_id := 1; email := "a@alpha" |};
    InsertIntoCandidats 20 worker; InsertIntoCandidats 21 worker;
    InsertIntoBesoins 10 (need_of 1); InsertIntoBesoins 11 (need_of 2);
    InsertIntoMatchings 30 (scored 10 20 1 6200 1);
    InsertIntoMatchings 31 (scored 11 21 2 9050 1);
    InsertIntoCandidatures 40 (application (Some 30%positive) 10 20 1);
    InsertIntoCandidatures 41 (application (Some 30%positive) 11 21 2) ].

End SqlData.

Module UploadMoreProps.
Import Js Upload UploadMore.

(** White space at the front, at the back. *)
Definition starts_with_space (s : string) : bool :=
  match s with
  | String c _ => is_space c
  | EmptyString => false
  end.

Fixpoint ends_with_space (s : string) : bool :=
  match s with
  | EmptyString => false
  | String c EmptyString => is_space c
  | String _ rest => ends_with_space rest
  end.


Definition line_feed : string := String "010" "".

(** A header line, a blank line, and seven data lines. *)
Definition seven_workers : string :=
  "nom; ville ,age" +:+ line_feed +:+ line_feed
  +:+ "Ann,Lyon" +:+ line_feed +:+ "Bob;Paris;30;x" +:+ line_feed
  +:+ "Cyd,Lille,41" +:+ line_feed +:+ "Dan,Nice,25" +:+ line_feed
  +:+ "Eve,Metz,33" +:+ line_feed +:+ "Fay,Caen,52" +:+ line_feed
  +:+ "Gus,Pau,19".

Definition csv_file : file := {| name := "candidats.csv"; size := 2048 |}.


End UploadMoreProps.

Module RunMoreProps.
Import Js Matching RunProps.

(** The run button, the timers and the pending request all follow
    [isRunning]. *)
Definition page_follows_flag (w : world) : Prop :=
  runBtn_disabled (page w) = isRunning (mgr w)
  ∧ flag_matches_requests w
  ∧ if isRunning (mgr w)
    then ∃ id t, progressTimer (mgr w) = Some id
                 ∧ intervals w = {[ id := t ]}
                 ∧ delay_ms t = 1500
    else intervals w = ∅.

(** What the bar shows after the [n]-th firing of the timer. *)
Definition bar_after (n : nat) : option (Z * string) :=
  steps !! (n `min` 7 - 1)%nat.

(** A run of the whole list of needs, answered in the words of the
    code. *)
Definition answer : jsval :=
  JObj {[ "besoins_processed" := JNum 3; "matchings_created" := JNum 7;
          "duration_ms" := JNum 1200 ]}.

End RunMoreProps.

Module ResultsMoreData.
Import Js Results ResultsMore.

(** A score that rounds up into the next band. *)
Definition served_89_5 : api_matching :=
  {| m_id := "m-3"; m_candidat_id := "c-22"; m_candidat_nom := None;
     m_besoin_id := "b-10"; m_poste := Some "Cariste";
     m_score_total := (179 # 200)%Q; m_rang := Some 3; m_telephone := None;
     m_email := Some "ann@example.org"; m_disponibilite := None;
     m_experience := None;
     m_points_forts := []; m_points_faibles := [] |}.
End ResultsMoreData.

Module PagesData.
Import Js Results ResultsMore ResultsData.

(** Forty-five lines, twenty to a page, the second page open. *)
Definition forty_five : ResultsManager :=
  {| results := replicate 45 (line "m" 80 "bon");
     filteredResults := replicate 45 (line "m" 80 "bon");
     currentBesoinId := None; currentPage := 2; itemsPerPage := 20;
     rfilters := no_filters |}.
End PagesData.

Module FiltersData.
Import Js Results ResultsMore ResultsData.

(** Lines for two posts, one of them twice. *)
Definition post_line (ident : string) (s : Z) (stat p : string) : result :=
  {| id := ident; candidat_id := "c"; candidat_nom := "Candidat c";
     besoin_id := "b"; poste := p; score := s; rang := None;
     telephone := "N/A"; email := "ann@example.org";
     disponibilite := "N/A"; experience := "N/A"; points_forts := [];
     points_faibles := []; status := stat |}.

Definition two_posts : ResultsManager :=
  {| results := [post_line "m1" 92 "excellent" "Cariste";
                 post_line "m2" 60 "moyen" "Soudeur";
                 post_line "m3" 75 "bon" "Cariste"];
     filteredResults := [];
     currentBesoinId := None; currentPage := 1; itemsPerPage := 20;
     rfilters := no_filters |}.
End FiltersData.

Module ContactData.
Import Js Results ResultsMore ResultsData.

(** A served matching with an address and no telephone number. *)
Definition served_ann : api_matching :=
  {| m_id := "m1"; m_candidat_id := "c1"; m_candidat_nom := Some "Ann";
     m_besoin_id := "b1"; m_poste := None; m_score_total := (9 # 10)%Q;
     m_rang := Some 1; m_telephone := None;
     m_email := Some "ann@example.org"; m_disponibilite := None;
     m_experience := None; m_points_forts := [];
     m_points_faibles := [] |}.

(** Two needs, the second without matchings, and the first need's
    answer. *)
Definition need_1 : api_besoin :=
  {| b_id := "b1"; b_poste_recherche := Some "Cariste";
     b_nb_matchings := 1 |}.
Definition need_2 : api_besoin :=
  {| b_id := "b2"; b_poste_recherche := Some "Soudeur";
     b_nb_matchings := 0 |}.
Definition serve (ident : string) : option (list api_matching) :=
  if bool_decide (ident = "b1") then Some [served_ann] else None.
End ContactData.

(* ===================================================================== *)
(** * Properties of the store                                             *)
(* ===================================================================== *)

Section StoreFacts.
Import Schema Persistence.

Implicit Types (d : db) (m : matching) (k : uuid) (s : statement).

(** No row for the pair: exactly when [rows_of_pair] is empty. *)
Lemma rows_of_pair_nil b c (ms : gmap uuid matching) :
  rows_of_pair b c ms = [] ↔
  ∀ k m, ms !! k = Some m → ¬ (besoin_id m = b ∧ candidat_id m = c).
Proof.
  unfold rows_of_pair. split.
  - intros Hnil k m Hk Hp.
    eapply (filter_nil_not_elem_of _ _ (k, m)); eauto.
    by apply elem_of_map_to_list.
  - intros Hall. apply elem_of_nil_inv. intros [k m] Hin.
    apply list_elem_of_filter in Hin as [Hp Hin].
    apply elem_of_map_to_list in Hin. by eapply Hall.
Qed.

(** The first row found for a pair is a row of the table and holds the
    pair. *)
Lemma rows_of_pair_cons b c (ms : gmap uuid matching) k m rest :
  rows_of_pair b c ms = (k, m) :: rest →
  ms !! k = Some m ∧ besoin_id m = b ∧ candidat_id m = c.
Proof.
  intros Heq.
  assert (Hin : (k, m) ∈ rows_of_pair b c ms) by (rewrite Heq; left).
  apply list_elem_of_filter in Hin as [[??] Hin].
  by apply elem_of_map_to_list in Hin.
Qed.

Lemma unique_pairs_filter (P : uuid * matching → Prop)
    `{!∀ x, Decision (P x)} (ms : gmap uuid matching) :
  unique_pairs ms → unique_pairs (filter P ms).
Proof.
  intros Hu k1 k2 m1 m2 [H1 _]%map_lookup_filter_Some
    [H2 _]%map_lookup_filter_Some. by apply Hu.
Qed.

Lemma unique_pairs_insert_new (ms : gmap uuid matching) id m :
  unique_pairs ms →
  rows_of_pair (besoin_id m) (candidat_id m) ms = [] →
  unique_pairs (<[id := m]> ms).
Proof.
  intros Hu Hnil k1 k2 m1 m2 H1 H2 Hb Hc.
  pose proof (proj1 (rows_of_pair_nil _ _ _) Hnil) as Hno.
  destruct (decide (k1 = id)) as [->|N1], (decide (k2 = id)) as [->|N2];
    simplify_map_eq; try done.
  - exfalso. by eapply Hno.
  - exfalso. by eapply Hno.
  - by eapply Hu.
Qed.

Lemma unique_pairs_replace (ms : gmap uuid matching) k m0 m :
  unique_pairs ms → ms !! k = Some m0 →
  besoin_id m0 = besoin_id m → candidat_id m0 = candidat_id m →
  unique_pairs (<[k := m]> ms).
Proof.
  intros Hu H0 Hb0 Hc0 k1 k2 m1 m2 H1 H2 Hb Hc.
  destruct (decide (k1 = k)) as [->|N1], (decide (k2 = k)) as [->|N2];
    simplify_map_eq; try done.
  - symmetry. eapply Hu; eauto; congruence.
  - eapply Hu; eauto; congruence.
  - by eapply Hu.
Qed.

Lemma insert_matching_Some id m d d' :
  insert_matching id m d = Some d' →
  d' = with_matchings (<[id := m]> (matchings d)) d
  ∧ matchings d !! id = None
  ∧ row_ok m d = true
  ∧ rows_of_pair (besoin_id m) (candidat_id m) (matchings d) = [].
Proof.
  unfold insert_matching. intros H.
  case_match eqn:Hc; [|done].
  apply andb_prop in Hc as [[Hpk Hrow]%andb_prop Hun].
  apply bool_decide_eq_true in Hpk, Hun. by simplify_eq.
Qed.

(** Each statement keeps [UNIQUE(besoin_id, candidat_id)]. *)
Lemma exec_unique_pairs s d :
  unique_pairs (matchings d) → unique_pairs (matchings (exec s d)).
Proof.
  intros Hu. unfold exec. destruct (try_exec s d) as [d'|] eqn:Hs; [|done].
  destruct s as [id c|id c|id b|id m|fresh m|x]; simpl in *.
  - unfold insert_client in Hs. case_match; by simplify_eq.
  - unfold insert_candidat in Hs. case_match; by simplify_eq.
  - unfold insert_besoin in Hs. case_match; by simplify_eq.
  - apply insert_matching_Some in Hs as (-> & _ & _ & Hnil).
    by apply unique_pairs_insert_new.
  - unfold upsert_match in Hs.
    destruct (tenant_of_need m d); [|done].
    destruct (rows_of_pair _ _ _) as [|[k m0] rest] eqn:Hrows.
    + apply insert_matching_Some in Hs as (-> & _ & _ & Hnil).
      by apply unique_pairs_insert_new.
    + apply rows_of_pair_cons in Hrows as (Hk & Hb & Hc).
      destruct (row_ok m d); simplify_eq. simpl.
      by eapply unique_pairs_replace.
  - simplify_eq. destruct x; simpl; try done;
      by apply unique_pairs_filter.
Qed.

Lemma run_unique_pairs ss d :
  unique_pairs (matchings d) → unique_pairs (matchings (run ss d)).
Proof.
  revert d. induction ss as [|s ss IH]; intros d Hu; [done|].
  simpl. apply IH. by apply exec_unique_pairs.
Qed.

(** A second row for a stored pair is refused by a plain [INSERT]. *)
Lemma insert_matching_duplicate id m d k m0 :
  matchings d !! k = Some m0 →
  besoin_id m0 = besoin_id m → candidat_id m0 = candidat_id m →
  insert_matching id m d = None.
Proof.
  intros Hk Hb Hc. destruct (insert_matching id m d) as [d'|] eqn:Hi; [|done].
  apply insert_matching_Some in Hi as (_ & _ & _ & Hnil).
  exfalso. eapply (proj1 (rows_of_pair_nil _ _ _) Hnil); eauto.
Qed.

(** Re-scoring a stored pair: the row keeps its key, no row is added. *)
Lemma upsert_match_in_place fresh m d d' k m0 :
  unique_pairs (matchings d) →
  matchings d !! k = Some m0 →
  besoin_id m0 = besoin_id m → candidat_id m0 = candidat_id m →
  upsert_match fresh m d = Some d' →
  matchings d' = <[k := m]> (matchings d)
  ∧ dom (matchings d') = dom (matchings d)
  ∧ size (matchings d') = size (matchings d).
Proof.
  intros Hu Hk Hb Hc Hup. unfold upsert_match in Hup.
  destruct (tenant_of_need m d); [|done].
  destruct (rows_of_pair _ _ _) as [|[k' m1] rest] eqn:Hrows.
  - exfalso. eapply (proj1 (rows_of_pair_nil _ _ _) Hrows); eauto.
  - apply rows_of_pair_cons in Hrows as (Hk' & Hb' & Hc').
    assert (k' = k) as -> by (eapply Hu; eauto; congruence).
    destruct (row_ok m d); simplify_eq. simpl. split_and!; [done|..].
    + apply dom_insert_lookup_L. by eexists.
    + apply map_size_insert_Some. by eexists.
Qed.

End StoreFacts.

Section TenantFacts.
Import Schema Persistence.

Implicit Types (d : db) (m : matching) (k : uuid) (s : statement).

Lemma tenant_of_need_true m d :
  tenant_of_need m d = true →
  ∃ need, besoins d !! besoin_id m = Some need
          ∧ client_id m = besoin_client_id need.
Proof.
  unfold tenant_of_need. destruct (besoins d !! besoin_id m) as [need|];
    [|done].
  intros ?%bool_decide_eq_true. by exists need.
Qed.

Lemma tenant_consistent_insert d m k :
  tenant_consistent d → tenant_of_need m d = true →
  tenant_consistent (with_matchings (<[k := m]> (matchings d)) d).
Proof.
  intros Ht Hm k' m' Hk'. simpl in *.
  destruct (decide (k' = k)) as [->|Hne]; simplify_map_eq.
  - by apply tenant_of_need_true.
  - by eapply Ht.
Qed.

Lemma upsert_match_tenant_consistent fresh m d d' :
  tenant_consistent d → upsert_match fresh m d = Some d' →
  tenant_consistent d'.
Proof.
  intros Ht Hup. unfold upsert_match in Hup.
  destruct (tenant_of_need m d) eqn:Hten; [|done].
  destruct (rows_of_pair _ _ _) as [|[k m0] rest].
  - apply insert_matching_Some in Hup as (-> & _).
    by apply tenant_consistent_insert.
  - destruct (row_ok m d); simplify_eq.
    by apply tenant_consistent_insert.
Qed.

Lemma exec_delete_tenant_consistent x d :
  tenant_consistent d → tenant_consistent (exec_delete x d).
Proof.
  intros Ht. destruct x as [c|u|c|b|q]; intros k m; simpl.
  - intros [Hk [Hcl Hb]]%map_lookup_filter_Some. simpl in *.
    destruct (Ht k m Hk) as (need & Hneed & Heq). exists need.
    split; [|done]. apply map_lookup_filter_Some. split; [done|]. simpl.
    unfold besoin_of_client in Hb. rewrite Hneed in Hb.
    by apply bool_decide_eq_false in Hb.
  - apply Ht.
  - intros [Hk _]%map_lookup_filter_Some. by eapply Ht.
  - intros [Hk Hb]%map_lookup_filter_Some. simpl in *.
    destruct (Ht k m Hk) as (need & Hneed & Heq). exists need.
    by rewrite lookup_delete_ne.
  - apply Ht.
Qed.

(** The engine's statements keep the tenant anchor. *)
Lemma exec_tenant_consistent s d :
  by_engine s = true →
  tenant_consistent d → tenant_consistent (exec s d).
Proof.
  intros Hs Ht. unfold exec.
  destruct (try_exec s d) as [d'|] eqn:He; [|done].
  destruct s as [id c|id c|id b|id m|fresh m|x]; simpl in *; try done.
  - unfold insert_client in He. case_match; by simplify_eq.
  - unfold insert_candidat in He. case_match; by simplify_eq.
  - unfold insert_besoin in He. case_match eqn:Hc; simplify_eq.
    apply andb_prop in Hc as [Hpk%bool_decide_eq_true _].
    intros k m Hk. simpl in *.
    destruct (Ht k m Hk) as (need & Hneed & Heq). exists need.
    split; [|done]. rewrite lookup_insert_ne; [done|]. congruence.
  - by eapply upsert_match_tenant_consistent.
  - simplify_eq. by apply exec_delete_tenant_consistent.
Qed.

Lemma run_tenant_consistent ss d :
  forallb by_engine ss = true →
  tenant_consistent d → tenant_consistent (run ss d).
Proof.
  revert d. induction ss as [|s ss IH]; intros d Hall Ht; [done|].
  simpl in *. apply andb_prop in Hall as [Hs Hall].
  apply IH; [done|]. by apply exec_tenant_consistent.
Qed.

Lemma tenant_consistent_empty : tenant_consistent empty_db.
Proof. intros k m Hk. simpl in Hk. by rewrite lookup_empty in Hk. Qed.

End TenantFacts.

Section CascadeFacts.
Import Schema Persistence.

Implicit Types (d : db) (m : matching) (k : uuid) (x : deletion).




End CascadeFacts.

Section ForeignKeyFacts.
Import Schema Persistence.

Implicit Types (d : db) (m : matching) (k : uuid) (s : statement).

Lemma row_ok_foreign_keys m d :
  row_ok m d = true →
  is_Some (besoins d !! besoin_id m)
  ∧ is_Some (candidats d !! candidat_id m)
  ∧ is_Some (clients d !! client_id m).
Proof.
  unfold row_ok, check_foreign_keys.
  intros [_ [[Hb Hc]%andb_prop Hcl]%andb_prop]%andb_prop.
  by apply bool_decide_eq_true in Hb, Hc, Hcl.
Qed.

Lemma foreign_keys_with_matching d m k :
  foreign_keys_hold d → row_ok m d = true →
  foreign_keys_hold (with_matchings (<[k := m]> (matchings d)) d).
Proof.
  intros [Hm Hb] Hok. split; [|done]. intros k' m' Hk'. simpl in *.
  destruct (decide (k' = k)) as [->|Hne]; simplify_map_eq.
  - by apply row_ok_foreign_keys.
  - by eapply Hm.
Qed.

Lemma exec_delete_foreign_keys x d :
  foreign_keys_hold d → foreign_keys_hold (exec_delete x d).
Proof.
  intros [Hm Hb]. destruct x as [c|u|c|b|q]; [|done| | |done].
  - split; simpl.
    + intros k m [Hk [Hcl Hof]]%map_lookup_filter_Some. simpl in *.
      destruct (Hm k m Hk) as ([r Hr] & Hc & Hcli). split_and!; [|done|].
      * exists r. apply map_lookup_filter_Some. split; [done|]. simpl.
        unfold besoin_of_client in Hof. rewrite Hr in Hof.
        by apply bool_decide_eq_false in Hof.
      * by rewrite lookup_delete_ne.
    + intros k r [Hk Hne]%map_lookup_filter_Some. simpl in *.
      rewrite lookup_delete_ne; [|done]. by eapply Hb.
  - split; simpl; [|done].
    intros k m [Hk Hne]%map_lookup_filter_Some. simpl in *.
    destruct (Hm k m Hk) as (? & ? & ?). split_and!; [done| |done].
    by rewrite lookup_delete_ne.
  - split; simpl.
    + intros k m [Hk Hne]%map_lookup_filter_Some. simpl in *.
      destruct (Hm k m Hk) as (? & ? & ?). split_and!; [|done|done].
      by rewrite lookup_delete_ne.
    + intros k r [Hne Hk]%lookup_delete_Some. by eapply Hb.
Qed.

(** Every statement keeps the foreign keys of [matchings] and
    [besoins] valid. *)
Lemma exec_foreign_keys s d :
  foreign_keys_hold d → foreign_keys_hold (exec s d).
Proof.
  intros Hfk. unfold exec.
  destruct (try_exec s d) as [d'|] eqn:He; [|done].
  destruct s as [id c|id c|id b|id m|fresh m|x]; simpl in *.
  - unfold insert_client in He. case_match eqn:Hpk; simplify_eq.
    apply bool_decide_eq_true in Hpk. destruct Hfk as [Hm Hb].
    split; simpl.
    + intros k m Hk. destruct (Hm k m Hk) as (? & ? & ?).
      split_and!; [done|done|]. apply lookup_insert_is_Some'. by right.
    + intros k r Hk. apply lookup_insert_is_Some'. right. by eapply Hb.
  - unfold insert_candidat in He. case_match; simplify_eq.
    destruct Hfk as [Hm Hb]. split; simpl; [|done].
    intros k m Hk. destruct (Hm k m Hk) as (? & ? & ?).
    split_and!; [done| |done]. apply lookup_insert_is_Some'. by right.
  - unfold insert_besoin in He. case_match eqn:Hc; simplify_eq.
    apply andb_prop in Hc as [_ Hcl%bool_decide_eq_true].
    destruct Hfk as [Hm Hb]. split; simpl.
    + intros k m Hk. destruct (Hm k m Hk) as (? & ? & ?).
      split_and!; [|done|done]. apply lookup_insert_is_Some'. by right.
    + intros k r Hk. destruct (decide (k = id)) as [->|Hne];
        simplify_map_eq; [done|]. by eapply Hb.
  - apply insert_matching_Some in He as (-> & _ & Hok & _).
    by apply foreign_keys_with_matching.
  - unfold upsert_match in He. destruct (tenant_of_need m d); [|done].
    destruct (rows_of_pair _ _ _) as [|[k m0] rest].
    + apply insert_matching_Some in He as (-> & _ & Hok & _).
      by apply foreign_keys_with_matching.
    + destruct (row_ok m d) eqn:Hok; simplify_eq.
      by apply foreign_keys_with_matching.
  - simplify_eq. by apply exec_delete_foreign_keys.
Qed.

Lemma run_foreign_keys ss d :
  foreign_keys_hold d → foreign_keys_hold (run ss d).
Proof.
  revert d. induction ss as [|s ss IH]; intros d Hfk; [done|].
  simpl. apply IH. by apply exec_foreign_keys.
Qed.

Lemma foreign_keys_empty : foreign_keys_hold empty_db.
Proof. split; intros k x Hk; simpl in Hk; by rewrite lookup_empty in Hk. Qed.

End ForeignKeyFacts.


Section StoreClaims.
Import Schema Persistence StoreData.

Implicit Types (d : db) (m : matching) (k : uuid) (s : statement).

(** C2.  In every state the store can reach, by any statements at all,
    no two matchings share their need and their candidate.  For a pair
    that has its row, a plain [INSERT] of another row is refused, and the
    engine's upsert puts the new values into the row that is there: same
    key, same number of rows. *)
Theorem one_matching_per_pair (ss : list statement) (fresh : uuid)
    (m : matching) :
  let d := run ss empty_db in
  unique_pairs (matchings d)
  ∧ ∀ k m0,
      matchings d !! k = Some m0 →
      besoin_id m0 = besoin_id m → candidat_id m0 = candidat_id m →
      insert_matching fresh m d = None
      ∧ ∀ d', upsert_match fresh m d = Some d' →
          matchings d' = <[k := m]> (matchings d)
          ∧ size (matchings d') = size (matchings d)
          ∧ unique_pairs (matchings d').
Proof.
  intros d.
  assert (Hu : unique_pairs (matchings d)).
  { apply run_unique_pairs. intros k1 k2 m1 m2 H1. simpl in H1.
    by rewrite lookup_empty in H1. }
  split; [done|]. intros k m0 Hk Hb Hc. split.
  - by eapply insert_matching_duplicate.
  - intros d' Hup.
    destruct (upsert_match_in_place fresh m d d' k m0) as (? & ? & ?);
      try done.
    split_and!; [done|done|].
    pose proof (exec_unique_pairs (UpsertMatch fresh m) d Hu) as Hu'.
    unfold exec in Hu'. simpl in Hu'. by rewrite Hup in Hu'.
Qed.

Lemma one_matching_per_pair_witness :
  let d := run one_match empty_db in
  let again := scored 10 20 1 8800 1 in
  matchings d !! 30%positive = Some (scored 10 20 1 6200 1)
  ∧ insert_matching 31 again d = None
  ∧ ∃ d', upsert_match 31 again d = Some d'
          ∧ matchings d' !! 30%positive = Some again
          ∧ size (matchings d') = 1%nat.
Proof.
  intros d again.
  assert (Hk : matchings d !! 30%positive = Some (scored 10 20 1 6200 1))
    by reflexivity.
  destruct (one_matching_per_pair one_match 31 again) as [_ Hpair].
  destruct (Hpair 30%positive _ Hk eq_refl eq_refl) as [Hins Hup].
  split_and!; [exact Hk|exact Hins|].
  assert (Hex : ∃ d', upsert_match 31 again d = Some d')
    by (vm_compute; eexists; reflexivity).
  destruct Hex as [d' Hd']. exists d'. split; [exact Hd'|].
  destruct (Hup d' Hd') as (Hms & Hsize & _).
  split.
  - rewrite Hms. apply lookup_insert_eq.
  - rewrite Hsize. reflexivity.
Defined.

(** C3.  As long as matchings are written through the engine's upsert,
    every matching in the store carries the tenant of its need, and what
    a query scoped to a tenant returns belongs to that tenant: the rows
    name the tenant, and so do the needs they are about. *)
Theorem tenant_isolation (ss : list statement) (tenant need : uuid) :
  forallb by_engine ss = true →
  let d := run ss empty_db in
  tenant_consistent d
  ∧ (∀ k m, matches_of_tenant tenant d !! k = Some m →
       matchings d !! k = Some m
       ∧ client_id m = tenant
       ∧ ∃ b, besoins d !! besoin_id m = Some b
              ∧ besoin_client_id b = tenant)
  ∧ (∀ k m, list_matches tenant need d !! k = Some m →
       matchings d !! k = Some m
       ∧ client_id m = tenant ∧ besoin_id m = need
       ∧ ∃ b, besoins d !! need = Some b ∧ besoin_client_id b = tenant).
Proof.
  intros Hss d.
  assert (Ht : tenant_consistent d)
    by (apply run_tenant_consistent; [done|apply tenant_consistent_empty]).
  split_and!; [done|..].
  - intros k m [Hk Hcl]%map_lookup_filter_Some. simpl in Hcl.
    destruct (Ht k m Hk) as (b & Hb & Heq).
    split_and!; [done|done|]. exists b. split; congruence.
  - intros k m [Hk [Hcl Hn]]%map_lookup_filter_Some. simpl in Hcl, Hn.
    destruct (Ht k m Hk) as (b & Hb & Heq).
    split_and!; [done|done|done|]. exists b. split; congruence.
Qed.

Lemma tenant_isolation_witness :
  let d := run one_match empty_db in
  forallb by_engine one_match = true
  ∧ matches_of_tenant 2 d = ∅
  ∧ ∀ k m, matches_of_tenant 1 d !! k = Some m → client_id m = 1%positive.
Proof.
  intros d.
  assert (Hss : forallb by_engine one_match = true) by reflexivity.
  split_and!; [exact Hss|reflexivity|].
  intros k m Hk.
  destruct (tenant_isolation one_match 1 10 Hss) as (_ & Hq & _).
  destruct (Hq k m Hk) as (_ & Hcl & _). exact Hcl.
Defined.

(** The schema alone does not tie the two tenant columns together: a
    plain [INSERT] may name a tenant other than that of the need. *)
Lemma plain_insert_may_cross_tenants :
  let d := run foreign_match empty_db in
  matchings d !! 30%positive = Some (scored 10 20 2 6200 1)
  ∧ besoins d !! 10%positive = Some (need_of 1)
  ∧ foreign_keys_hold d.
Proof.
  split_and!; [reflexivity|reflexivity|].
  apply run_foreign_keys, foreign_keys_empty.
Qed.




End StoreClaims.

(* ===================================================================== *)
(** * Properties of the run trigger                                       *)
(* ===================================================================== *)

Section RunGuard.
Import Js Matching RunProps.

Implicit Types (w : world) (e : event).

Lemma clearProgressTimer_frame w :
  mgr (clearProgressTimer w) = mgr w
  ∧ in_flight (clearProgressTimer w) = in_flight w
  ∧ told (clearProgressTimer w) = told w
  ∧ shown (clearProgressTimer w) = shown w.
Proof. unfold clearProgressTimer. by destruct (progressTimer (mgr w)). Qed.

Lemma on_error_frame msg w :
  isRunning (mgr (on_error msg w)) = isRunning (mgr w)
  ∧ in_flight (on_error msg w) = in_flight w.
Proof.
  unfold on_error. simpl.
  destruct (clearProgressTimer_frame
              (tell (Toast ("Erreur lors du matching: " +:+ msg) "error") w))
    as (-> & -> & _). done.
Qed.

Lemma settle_not_running o w :
  in_flight w ≠ [] →
  isRunning (mgr (settle o w)) = false
  ∧ in_flight (settle o w) = tail (in_flight w).
Proof.
  unfold settle. destruct (in_flight w) as [|body rest] eqn:Hq; [done|].
  intros _. destruct o as [response|msg]; simpl.
  - destruct (summary response) as [[[b m] t]|]; simpl.
    + split; [done|].
      by destruct (clearProgressTimer_frame
        {| mgr := mgr w; page := page w; intervals := intervals w;
           next_timer := next_timer w; in_flight := rest;
           told := told w; shown := shown w |}) as (_ & -> & _).
    + split; [done|]. unfold clearProgressTimer at 1. simpl.
      destruct (progressTimer _); simpl;
      by destruct (clearProgressTimer_frame
        {| mgr := mgr w; page := page w; intervals := intervals w;
           next_timer := next_timer w; in_flight := rest;
           told := told w; shown := shown w |}) as (_ & -> & _).
  - split; [done|]. unfold clearProgressTimer. simpl.
    by destruct (progressTimer _).
Qed.

Lemma tick_frame id w :
  mgr (tick id w) = mgr w ∧ in_flight (tick id w) = in_flight w
  ∧ told (tick id w) = told w.
Proof.
  unfold tick. destruct (intervals w !! id) as [t|]; [|done].
  by destruct (steps !! currentStep t) as [[??]|].
Qed.

Lemma step_flag_matches_requests e w :
  flag_matches_requests w → flag_matches_requests (step e w).
Proof.
  unfold flag_matches_requests. intros Hw.
  destruct e as [confirmed| |c| |id|o]; simpl.
  - unfold runMatching. destruct (isRunning (mgr w)) eqn:Hr; simpl.
    + by rewrite Hr.
    + destruct confirmed; simpl; [|by rewrite Hr].
      rewrite length_app. simpl. lia.
  - unfold previewMatching.
    destruct (isRunning (mgr w)) eqn:Hr; simpl; by rewrite Hr.
  - done.
  - done.
  - by destruct (tick_frame id w) as (-> & -> & _).
  - destruct (in_flight w) as [|body rest] eqn:Hq.
    { unfold settle. rewrite !Hq. exact Hw. }
    destruct (settle_not_running o w) as [-> ->]; [by rewrite Hq|].
    rewrite Hq. simpl in *. destruct (isRunning (mgr w)); lia.
Qed.

Lemma play_flag_matches_requests es w :
  flag_matches_requests w → flag_matches_requests (play es w).
Proof.
  revert w. induction es as [|e es IH]; intros w Hw; [done|].
  simpl. apply IH. by apply step_flag_matches_requests.
Qed.

(** C4.  While a run is in progress a click on the run button (or on the
    preview button) is turned away with a warning and nothing else: the
    manager, the page, the timers and the pending requests stay as they
    are, and no request is sent.  Hence, whatever happens on the page,
    at most one run request is ever waiting for its response, and one is
    waiting exactly while [isRunning] is set. *)
Theorem run_rejected_while_running (w : world) (confirmed : bool)
    (es : list event) :
  (isRunning (mgr w) = true →
     runMatching confirmed w = tell already_running w
     ∧ previewMatching w = tell already_running w
     ∧ mgr (runMatching confirmed w) = mgr w
     ∧ page (runMatching confirmed w) = page w
     ∧ intervals (runMatching confirmed w) = intervals w
     ∧ in_flight (runMatching confirmed w) = in_flight w)
  ∧ (length (in_flight (play es init)) ≤ 1)%nat
  ∧ flag_matches_requests (play es init).
Proof.
  split_and!.
  - intros Hr. unfold runMatching, previewMatching. by rewrite Hr.
  - pose proof (play_flag_matches_requests es init eq_refl) as H.
    unfold flag_matches_requests in H.
    destruct (isRunning _); lia.
  - by apply play_flag_matches_requests.
Qed.

Lemma run_rejected_while_running_witness :
  let w := play [RunClicked true] init in
  isRunning (mgr w) = true
  ∧ length (in_flight (runMatching true w)) = 1%nat
  ∧ told (runMatching true w) = told w ++ [already_running].
Proof.
  set (w := play [RunClicked true] init).
  assert (Hr : isRunning (mgr w) = true) by reflexivity.
  destruct (run_rejected_while_running w true [RunClicked true])
    as (Hguard & _ & _).
  destruct (Hguard Hr) as (Heq & _ & _ & _ & _ & Hq).
  split_and!; [exact Hr| |by rewrite Heq].
  rewrite Hq. reflexivity.
Defined.

End RunGuard.

Section RunRequest.
Import Js Matching RunProps.

Implicit Types (w : world) (e : event) (c : config).

(** The members of the request body, read one by one. *)
Lemma requestData_members c :
  get (requestData c) "besoin_id" = Some (js_or (besoin_id c) JNull)
  ∧ get (requestData c) "use_ai" = Some (JBool (use_ai c))
  ∧ get (requestData c) "force_refresh" = Some (JBool true)
  ∧ get (requestData c) "config"
    = Some (JObj {[ "score_min" := JNum (score_min c);
                    "nb_candidats" := JNum (nb_candidats c) ]}).
Proof. by split_and!. Qed.

(** It has no other member. *)
Lemma requestData_other_members c key :
  key ∉ ["besoin_id"; "use_ai"; "force_refresh"; "config"] →
  get (requestData c) key = Some JUndefined.
Proof.
  intros Hkey. unfold requestData, get. f_equal.
  rewrite !lookup_insert_ne, lookup_singleton_ne; [done|..];
    intros <-; apply Hkey; set_solver.
Qed.

Lemma posts_snoc_other l x :
  posts_from_requestData l → (∀ ep body, x ≠ Post ep body) →
  posts_from_requestData (l ++ [x]).
Proof.
  intros Hl Hx ep body [Hin|Hin%list_elem_of_singleton]%elem_of_app.
  - by apply Hl.
  - by destruct (Hx ep body).
Qed.

Lemma told_settle o w :
  told (settle o w) = told w ∨ ∃ x, told (settle o w) = told w ++ [x]
                                   ∧ ∀ ep body, x ≠ Post ep body.
Proof.
  unfold settle. destruct (in_flight w) as [|b rest]; [by left|]. right.
  pose proof (clearProgressTimer_frame
    {| mgr := mgr w; page := page w; intervals := intervals w;
       next_timer := next_timer w; in_flight := rest;
       told := told w; shown := shown w |}) as (_ & _ & Hc & _).
  simpl in Hc.
  destruct o as [response|msg]; simpl.
  - destruct (summary response) as [[[bp mc] t]|]; simpl.
    + eexists. split; [by rewrite Hc|done].
    + eexists. unfold on_error. simpl.
      match goal with |- told (clearProgressTimer ?x) = _ ∧ _ =>
        destruct (clearProgressTimer_frame x) as (_ & _ & -> & _) end.
      simpl. split; [by rewrite Hc|done].
  - eexists. unfold on_error. simpl.
    match goal with |- told (clearProgressTimer ?x) = _ ∧ _ =>
      destruct (clearProgressTimer_frame x) as (_ & _ & -> & _) end.
    simpl. split; [done|done].
Qed.

Lemma step_posts e w :
  posts_from_requestData (told w) →
  posts_from_requestData (told (step e w)).
Proof.
  intros Hw. destruct e as [confirmed| |c| |id|o]; simpl.
  - unfold runMatching. destruct (isRunning (mgr w)); simpl.
    + by apply posts_snoc_other.
    + destruct confirmed; simpl; [|done].
      intros ep body [Hin|Hin%list_elem_of_singleton]%elem_of_app.
      * by apply Hw.
      * simplify_eq. eauto.
  - unfold previewMatching.
    destruct (isRunning (mgr w)); simpl; by apply posts_snoc_other.
  - done.
  - done.
  - by destruct (tick_frame id w) as (_ & _ & ->).
  - destruct (told_settle o w) as [->|(x & -> & Hx)]; [done|].
    by apply posts_snoc_other.
Qed.

Lemma play_posts es w :
  posts_from_requestData (told w) →
  posts_from_requestData (told (play es w)).
Proof.
  revert w. induction es as [|e es IH]; intros w Hw; [done|].
  simpl. apply IH. by apply step_posts.
Qed.

(** C6, as the code has it.  Every request [runMatching] sends to the
    run endpoint is the object
    [{ besoin_id, use_ai, force_refresh: true, config: { score_min,
    nb_candidats } }] built from the manager's configuration:
    [besoin_id] is the chosen identifier or [null], the two thresholds
    always travel, under the key [config], and [force_refresh] is
    always [true].  The object has no member named [need_id] or
    [override_config]. *)
Theorem run_request_shape (es : list event) (endpoint : string)
    (body : jsval) :
  Post endpoint body ∈ told (play es init) →
  endpoint = Config.RUN_MATCHING
  ∧ ∃ c, body = requestData c
      ∧ get body "besoin_id" = Some (js_or (besoin_id c) JNull)
      ∧ get body "use_ai" = Some (JBool (use_ai c))
      ∧ get body "force_refresh" = Some (JBool true)
      ∧ get body "config"
        = Some (JObj {[ "score_min" := JNum (score_min c);
                        "nb_candidats" := JNum (nb_candidats c) ]})
      ∧ get body "need_id" = Some JUndefined
      ∧ get body "override_config" = Some JUndefined.
Proof.
  intros Hin.
  destruct (play_posts es init) with (endpoint := endpoint) (body := body)
    as (-> & c & ->); [by intros ?? ?%elem_of_nil|done|].
  split; [done|]. exists c.
  destruct (requestData_members c) as (? & ? & ? & ?).
  split_and!; try done; apply requestData_other_members; set_solver.
Qed.

Lemma run_request_shape_witness :
  let c := {| besoin_id := JStr "b-17"; score_min := 55;
              nb_candidats := 3; use_ai := true |} in
  let es := [Configure c; RunClicked true] in
  Post Config.RUN_MATCHING (requestData c) ∈ told (play es init)
  ∧ get (requestData c) "force_refresh" = Some (JBool true).
Proof.
  intros c es.
  assert (Hin : Post Config.RUN_MATCHING (requestData c)
                  ∈ told (play es init)).
  { vm_compute. left. }
  split; [exact Hin|].
  destruct (run_request_shape es _ _ Hin) as (_ & c' & _ & _ & _ & H & _).
  exact H.
Defined.

(** C6, as stated, fails: a run with thresholds chosen by the user puts
    them under [config], not under [override_config], and no
    configuration whatever makes [force_refresh] false. *)
Lemma run_request_has_no_override_config :
  let c := {| besoin_id := JNull; score_min := 55; nb_candidats := 3;
              use_ai := false |} in
  get (requestData c) "override_config" = Some JUndefined
  ∧ get (requestData c) "config"
    = Some (JObj {[ "score_min" := JNum 55; "nb_candidats" := JNum 3 ]})
  ∧ in_flight (play [Configure c; RunClicked true] init) = [requestData c]
  ∧ ¬ (∃ c', get (requestData c') "force_refresh" = Some (JBool false)).
Proof.
  intros c. split_and!; try reflexivity.
  intros [c' H]. by destruct (requestData_members c') as (_ & _ & ? & _).
Qed.

End RunRequest.

Section RunSummary.
Import Js Matching RunProps.

Implicit Types (w : world) (o : gmap string jsval).

Lemma summary_object o :
  summary (JObj o)
  = Some (js_or (member o "besoins_processed") (JNum 0),
          js_or (member o "matchings_created") (JNum 0),
          if truthy (member o "duration_ms")
          then Some (member o "duration_ms") else None).
Proof. reflexivity. Qed.

(** C5, as the code has it.  The summary shown after a run reads the
    response under [besoins_processed], [matchings_created] and
    [duration_ms], and under no other name: two responses that agree on
    these three members give the same summary, whatever they hold under
    [needs_processed] or [failures]; a missing count is shown as 0 and a
    missing duration as N/A. *)
Theorem run_summary_members (o1 o2 : gmap string jsval) (w : world) :
  o1 !! "besoins_processed" = o2 !! "besoins_processed" →
  o1 !! "matchings_created" = o2 !! "matchings_created" →
  o1 !! "duration_ms" = o2 !! "duration_ms" →
  summary (JObj o1) = summary (JObj o2)
  ∧ (in_flight w ≠ [] →
     told (settle (Resolved (JObj o1)) w)
     = told w ++ [ToastSummary
                    (js_or (member o2 "besoins_processed") (JNum 0))
                    (js_or (member o2 "matchings_created") (JNum 0))
                    (if truthy (member o2 "duration_ms")
                     then Some (member o2 "duration_ms") else None)]).
Proof.
  intros Hb Hm Ht. rewrite !summary_object. unfold member.
  rewrite Hb, Hm, Ht. split; [done|]. intros Hq.
  unfold settle. destruct (in_flight w) as [|b rest]; [done|].
  rewrite summary_object. unfold member. rewrite Hb, Hm, Ht. simpl.
  by destruct (clearProgressTimer_frame
    {| mgr := mgr w; page := page w; intervals := intervals w;
       next_timer := next_timer w; in_flight := rest;
       told := told w; shown := shown w |}) as (_ & _ & -> & _).
Qed.

Lemma run_summary_members_witness :
  summary (JObj response_fr)
  = summary (JObj (<["failures" := JArr []]> response_fr))
  ∧ summary (JObj response_fr) = Some (JNum 3, JNum 7, Some (JNum 1200)).
Proof.
  split; [|reflexivity].
  apply (run_summary_members response_fr
           (<["failures" := JArr []]> response_fr) init);
    reflexivity.
Defined.

(** C5, as stated, fails: of a response that reports three processed
    needs under [needs_processed] the summary shows none. *)
Lemma run_summary_ignores_needs_processed :
  response_en !! "needs_processed" = Some (JNum 3)
  ∧ summary (JObj response_en) = Some (JNum 0, JNum 7, Some (JNum 1200))
  ∧ last (told (play [RunClicked true; Settled (Resolved (JObj response_en))]
                  init))
    = Some (ToastSummary (JNum 0) (JNum 7) (Some (JNum 1200))).
Proof. split_and!; reflexivity. Qed.

End RunSummary.

Section ProgressBar.
Import Js Matching RunProps.

Implicit Types (w : world) (e : event) (id f n : nat).






End ProgressBar.

(* ===================================================================== *)
(** * Properties of the file validation                                   *)
(* ===================================================================== *)

Section FileValidation.
Import Js Upload UploadProps.

Implicit Types (s stem e : string) (f : file).

Lemma split_nonempty sep s : split sep s ≠ [].
Proof.
  destruct s as [|c rest]; simpl; [done|].
  destruct (split sep rest); [done|]. by case_bool_decide.
Qed.

Lemma split_dotless e : dotless e = true → split "." e = [e].
Proof.
  induction e as [|c e IH]; simpl; [done|].
  intros [Hc He]%andb_prop. rewrite (IH He).
  apply negb_true_iff in Hc. by rewrite Hc.
Qed.

(** Cutting at a separator: the pieces before it, then the pieces
    after it. *)
Lemma split_app sep stem e :
  split sep (stem +:+ String sep e) = split sep stem ++ split sep e.
Proof.
  induction stem as [|c stem IH]; simpl.
  - destruct (split sep e) eqn:He; [by destruct (split_nonempty sep e)|].
    by rewrite bool_decide_eq_true_2.
  - rewrite IH. destruct (split sep stem) eqn:Hs;
      [by destruct (split_nonempty sep stem)|].
    simpl. by case_bool_decide.
Qed.

(** The text after the last dot is what [split('.').pop()] returns. *)
Lemma pop_split_after_last_dot stem e :
  dotless e = true →
  pop (split "." (stem +:+ String "." e)) = Some e.
Proof.
  intros He. unfold pop. rewrite split_app, (split_dotless e He).
  by rewrite last_snoc.
Qed.

(** Without a dot the whole name comes back. *)
Lemma pop_split_dotless e :
  dotless e = true → pop (split "." e) = Some e.
Proof. intros He. unfold pop. by rewrite (split_dotless e He). Qed.

Lemma sizeMB_le f :
  Qle_bool (sizeMB f) (inject_Z Config.MAX_FILE_SIZE) = true
  ↔ (size f <= 10 * 1024 * 1024)%N.
Proof.
  rewrite Qle_bool_iff. unfold sizeMB, Qle, Qdiv, Qmult, Qinv, inject_Z.
  simpl. unfold Config.MAX_FILE_SIZE.
  change (Z.pos (1 * (1024 * 1024))) with 1048576. lia.
Qed.

(** The verdict of [validateFile], in one formula. *)
Lemma validateFile_true f :
  (validateFile f).1 = true
  ↔ extension f ∈ Config.ALLOWED_EXTENSIONS
    ∧ (size f <= 10 * 1024 * 1024)%N.
Proof.
  unfold validateFile. rewrite <- sizeMB_le.
  case_bool_decide as Hext; simpl.
  - destruct (Qle_bool _ _); simpl; [done|].
    split; [done|]. by intros [_ ?].
  - split; [done|]. by intros [? _].
Qed.

(** For a name with a dot, [validateFile] looks at the text after the
    last dot, whatever the case of its letters, and at the size: ten
    times 1024 * 1024 bytes at most. *)
Lemma validateFile_dotted stem e n :
  dotless e = true →
  (validateFile {| name := stem +:+ String "." e; size := n |}).1 = true
  ↔ toLowerCase e ∈ ["csv"; "xlsx"; "xls"] ∧ (n <= 10485760)%N.
Proof.
  intros He. rewrite validateFile_true. unfold extension. simpl name.
  rewrite (pop_split_after_last_dot stem e He). simpl.
  unfold Config.ALLOWED_EXTENSIONS.
  change (10 * 1024 * 1024)%N with 10485760%N.
  rewrite !elem_of_cons, !elem_of_nil.
  change ("." +:+ toLowerCase e) with (String "." (toLowerCase e)).
  split; (intros [[H|[H|[H|[]]]] ?]; (split; [|done]));
    [left|right; left|right; right; left|
     left|right; left|right; right; left]; congruence.
Qed.

(** A file that is turned away leaves the manager as it was; all that
    happens is the toast. *)
Lemma handleFileSelect_rejected f type st :
  (validateFile f).1 = false →
  (handleFileSelect f type st).1 = st
  ∧ (handleFileSelect f type st).2 = (validateFile f).2
  ∧ ∃ msg, (validateFile f).2 = [Toast msg "error"].
Proof.
  unfold handleFileSelect. destruct (validateFile f) as [ok toasts] eqn:Hv.
  simpl. intros ->. simpl. split_and!; [done|done|].
  unfold validateFile in Hv. repeat case_match; simplify_eq; eauto.
Qed.

(** C9 at a name without a dot.  A file called [csv] has no extension,
    yet [split('.').pop()] hands back the whole name, the check sees
    [".csv"], and the file is accepted and stored. *)
Theorem validateFile_accepts_name_without_dot :
  let f := {| name := "csv"; size := 1 |} in
  dotless (name f) = true
  ∧ extension f = ".csv"
  ∧ validateFile f = (true, [])
  ∧ files (handleFileSelect f "candidats" new).1 !! "candidats"
    = Some (Some f).
Proof. split_and!; reflexivity. Qed.

End FileValidation.

(* ===================================================================== *)
(** * Properties of the results view                                      *)
(* ===================================================================== *)

Section ResultFilters.
Import Js Results ResultsData.

Implicit Types (st : ResultsManager) (r : result).

Lemma keeps_score (f : filters) r n :
  parseInt (f_score f) = Some n → keeps f r = true → n ≤ score r.
Proof.
  intros Hn. unfold keeps. case_bool_decide as He.
  { rewrite He in Hn. done. }
  rewrite Hn. intros [[Hs _]%andb_prop _]%andb_prop.
  apply negb_true_iff, Z.ltb_ge in Hs. done.
Qed.

(** C10.  [applyFilters] keeps a sublist of the loaded results, leaves
    the loaded results alone and goes back to page 1; with a score filter
    that reads as the number [n], every line kept has a score of [n] at
    least; [clearFilters] empties the three filters and shows the loaded
    results again, all of them, in their order. *)
Theorem filters_select_among_loaded_results st :
  filteredResults (applyFilters st) `sublist_of` results st
  ∧ results (applyFilters st) = results st
  ∧ currentPage (applyFilters st) = 1
  ∧ (∀ n, parseInt (f_score (rfilters st)) = Some n →
       ∀ r, r ∈ filteredResults (applyFilters st) → n ≤ score r)
  ∧ filteredResults (clearFilters st) = results st
  ∧ results (clearFilters st) = results st
  ∧ rfilters (clearFilters st) = no_filters.
Proof.
  split_and!; try done.
  - apply sublist_filter.
  - intros n Hn r [Hk _]%list_elem_of_filter. by eapply keeps_score.
Qed.

Lemma filters_select_among_loaded_results_witness :
  filteredResults (applyFilters three_lines)
  = [line "m1" 92 "excellent"; line "m3" 75 "bon"]
  ∧ (∀ r, r ∈ filteredResults (applyFilters three_lines) → 75 ≤ score r)
  ∧ filteredResults (clearFilters three_lines) = results three_lines.
Proof.
  destruct (filters_select_among_loaded_results three_lines)
    as (_ & _ & _ & Hscore & Hclear & _).
  split_and!; [reflexivity| |exact Hclear].
  apply (Hscore 75). reflexivity.
Defined.

End ResultFilters.

Section ScoreScale.
Import Js Results ResultsData.

(** [Math.round] of a whole number is that number. *)
Lemma Math_round_whole (x : Q) (k : Z) : x == inject_Z k → Math_round x = k.
Proof.
  intros Hx. unfold Math_round. rewrite Hx.
  unfold Qfloor, Qplus, inject_Z. simpl.
  symmetry. apply Z.div_unique with (r := 1); lia.
Qed.

(** The score displayed for a stored [score_total] is its count of
    hundredths: a hundred times the stored number. *)
Lemma displayed_score_of_stored (m : api_matching) (k : Z) :
  m_score_total m == Schema.numeric_value k →
  score (process m) = k
  ∧ inject_Z (score (process m)) == 100 * Schema.numeric_value k.
Proof.
  intros Hm.
  assert (m_score_total m * 100 == inject_Z k) as Hk.
  { rewrite Hm. unfold Schema.numeric_value, Qeq, Qmult, inject_Z.
    simpl. lia. }
  assert (score (process m) = k) as Hs
    by (simpl; by apply Math_round_whole).
  split; [done|]. rewrite Hs.
  unfold Schema.numeric_value, Qeq, Qmult, inject_Z. simpl. lia.
Qed.

(** A row [CHECK (score_total BETWEEN 0 AND 100)] lets in is displayed
    with a score between 0 and 10000, and above 100 as soon as the
    stored total is more than 1. *)
Lemma displayed_score_range (m : api_matching) (row : Schema.matching) :
  Schema.check_score_total row = true →
  m_score_total m == Schema.numeric_value (Schema.score_total row) →
  0 ≤ score (process m) ≤ 10000
  ∧ (100 < score (process m) ↔ 100 < Schema.score_total row).
Proof.
  intros [H0 H1]%andb_prop Hm.
  apply Z.leb_le in H0, H1.
  destruct (displayed_score_of_stored m _ Hm) as [-> _]. lia.
Qed.


End ScoreScale.

(* ===================================================================== *)
(** * More on the store: what the script's constraints keep               *)
(* ===================================================================== *)

Section SqlFacts.
Import Schema Sql.

Implicit Types (d : db) (m : matching) (k : uuid) (s : sql)
  (x : deletion).

Lemma is_Some_insert_fresh {A} (t : gmap uuid A) (i j : uuid) (a : A) :
  is_Some (t !! j) → is_Some (<[i := a]> t !! j).
Proof. intros ?. apply lookup_insert_is_Some'. by right. Qed.

(** A deletion keeps the users' reference valid. *)
Lemma exec_delete_user_keys x d :
  (∀ k u, users d !! k = Some u → is_Some (clients d !! user_client_id u)) →
  ∀ k u, users (exec_delete x d) !! k = Some u →
    is_Some (clients (exec_delete x d) !! user_client_id u).
Proof.
  intros Hu. destruct x as [c|q|c|b|q]; simpl; intros k u.
  - intros [Hk Hne]%map_lookup_filter_Some. simpl in Hne.
    rewrite lookup_delete_ne; [|done]. by eapply Hu.
  - intros [_ Hk]%lookup_delete_Some. by eapply Hu.
  - apply Hu.
  - apply Hu.
  - apply Hu.
Qed.

Lemma set_null_matching_columns (ms : gmap uuid matching) c :
  cand_besoin_id (set_null_matching ms c) = cand_besoin_id c
  ∧ cand_candidat_id (set_null_matching ms c) = cand_candidat_id c
  ∧ cand_client_id (set_null_matching ms c) = cand_client_id c.
Proof.
  unfold set_null_matching. destruct (matching_id c) as [mk|]; [|done].
  by destruct (ms !! mk).
Qed.

Lemma set_null_matching_reference (ms : gmap uuid matching) c mk :
  matching_id (set_null_matching ms c) = Some mk →
  matching_id c = Some mk ∧ is_Some (ms !! mk).
Proof.
  unfold set_null_matching. destruct (matching_id c) as [mk'|] eqn:Hc;
    [|by rewrite Hc].
  destruct (ms !! mk') eqn:Hm; simpl; [|done].
  rewrite Hc. intros [= <-]. by rewrite Hm.
Qed.

(** A deletion keeps the candidatures' references valid: this is what
    [ON DELETE SET NULL] and the three cascades are for. *)
Lemma exec_delete_candidature_keys x d :
  (∀ k c, candidatures d !! k = Some c →
     (∀ mk, matching_id c = Some mk → is_Some (matchings d !! mk))
     ∧ is_Some (besoins d !! cand_besoin_id c)
     ∧ is_Some (candidats d !! cand_candidat_id c)
     ∧ is_Some (clients d !! cand_client_id c)) →
  ∀ k c, candidatures (exec_delete x d) !! k = Some c →
    (∀ mk, matching_id c = Some mk →
       is_Some (matchings (exec_delete x d) !! mk))
    ∧ is_Some (besoins (exec_delete x d) !! cand_besoin_id c)
    ∧ is_Some (candidats (exec_delete x d) !! cand_candidat_id c)
    ∧ is_Some (clients (exec_delete x d) !! cand_client_id c).
Proof.
  intros Hc. destruct x as [cl|q|ca|b|q]; simpl; intros k c.
  - rewrite lookup_fmap. intros Hk.
    apply fmap_Some in Hk as (c0 & Hk & ->).
    apply map_lookup_filter_Some in Hk as [Hk [Hne Hof]]. simpl in *.
    destruct (Hc k c0 Hk) as (_ & [r Hr] & Hca & Hcl).
    destruct (set_null_matching_columns
                (filter (λ km, client_id km.2 ≠ cl
                   ∧ besoin_of_client d cl (besoin_id km.2) = false)
                   (matchings d)) c0) as (-> & -> & ->).
    split_and!.
    + by intros mk [_ ?]%set_null_matching_reference.
    + exists r. apply map_lookup_filter_Some. split; [done|]. simpl.
      unfold besoin_of_client in Hof. rewrite Hr in Hof.
      by apply bool_decide_eq_false in Hof.
    + done.
    + by rewrite lookup_delete_ne.
  - apply Hc.
  - rewrite lookup_fmap. intros Hk.
    apply fmap_Some in Hk as (c0 & Hk & ->).
    apply map_lookup_filter_Some in Hk as [Hk Hne]. simpl in *.
    destruct (Hc k c0 Hk) as (_ & Hb & Hca & Hcl).
    destruct (set_null_matching_columns
                (filter (λ km, candidat_id km.2 ≠ ca) (matchings d)) c0)
      as (-> & -> & ->).
    split_and!; [|done| |done].
    + by intros mk [_ ?]%set_null_matching_reference.
    + by rewrite lookup_delete_ne.
  - rewrite lookup_fmap. intros Hk.
    apply fmap_Some in Hk as (c0 & Hk & ->).
    apply map_lookup_filter_Some in Hk as [Hk Hne]. simpl in *.
    destruct (Hc k c0 Hk) as (_ & Hb & Hca & Hcl).
    destruct (set_null_matching_columns
                (filter (λ km, besoin_id km.2 ≠ b) (matchings d)) c0)
      as (-> & -> & ->).
    split_and!; [| |done|done].
    + by intros mk [_ ?]%set_null_matching_reference.
    + by rewrite lookup_delete_ne.
  - intros [_ Hk]%lookup_delete_Some. by eapply Hc.
Qed.

Lemma exec_delete_references x d :
  references_hold d → references_hold (exec_delete x d).
Proof.
  intros (Hfk & Hu & Hc). split_and!.
  - by apply exec_delete_foreign_keys.
  - by apply exec_delete_user_keys.
  - by apply exec_delete_candidature_keys.
Qed.

Lemma exec_sql_references s d :
  references_hold d → references_hold (exec_sql s d).
Proof.
  intros Hd. unfold exec_sql.
  destruct (try_sql s d) as [d'|] eqn:Hs; [|done].
  destruct Hd as ([Hm Hb] & Hu & Hc).
  destruct s as [id c|id u|id c|id b|id m|id c|x]; simpl in Hs.
  - unfold insert_client in Hs. case_match; simplify_eq.
    split_and!; [split|..]; simpl.
    + intros k m Hk. destruct (Hm k m Hk) as (? & ? & ?).
      split_and!; [done|done|]. by apply is_Some_insert_fresh.
    + intros k b Hk. apply is_Some_insert_fresh. by eapply Hb.
    + intros k u Hk. apply is_Some_insert_fresh. by eapply Hu.
    + intros k c' Hk. destruct (Hc k c' Hk) as (? & ? & ? & ?).
      split_and!; [done|done|done|]. by apply is_Some_insert_fresh.
  - unfold insert_user in Hs. case_match eqn:Hchk; simplify_eq.
    apply andb_prop in Hchk as [_ Hcl%bool_decide_eq_true].
    split_and!; [by split|..]; simpl; [|done].
    intros k u' Hk. destruct (decide (k = id)) as [->|Hne];
      simplify_map_eq; [done|]. by eapply Hu.
  - unfold insert_candidat in Hs. case_match; simplify_eq.
    split_and!; [split|..]; simpl; [|done|done|].
    + intros k m Hk. destruct (Hm k m Hk) as (? & ? & ?).
      split_and!; [done| |done]. by apply is_Some_insert_fresh.
    + intros k c' Hk. destruct (Hc k c' Hk) as (? & ? & ? & ?).
      split_and!; [done|done| |done]. by apply is_Some_insert_fresh.
  - unfold insert_besoin in Hs. case_match eqn:Hchk; simplify_eq.
    apply andb_prop in Hchk as [_ Hcl%bool_decide_eq_true].
    split_and!; [split|..]; simpl; [| |done|].
    + intros k m Hk. destruct (Hm k m Hk) as (? & ? & ?).
      split_and!; [|done|done]. by apply is_Some_insert_fresh.
    + intros k b' Hk. destruct (decide (k = id)) as [->|Hne];
        simplify_map_eq; [done|]. by eapply Hb.
    + intros k c' Hk. destruct (Hc k c' Hk) as (? & ? & ? & ?).
      split_and!; [done| |done|done]. by apply is_Some_insert_fresh.
  - apply insert_matching_Some in Hs as (-> & _ & Hok & _).
    split_and!; [by apply foreign_keys_with_matching|done|]. simpl.
    intros k c' Hk. destruct (Hc k c' Hk) as (Hmk & ? & ? & ?).
    split_and!; [|done|done|done].
    intros mk Hid. apply is_Some_insert_fresh. by apply Hmk.
  - unfold insert_candidature in Hs. case_match eqn:Hchk; simplify_eq.
    apply andb_prop in Hchk as [_ Hkeys].
    unfold check_candidature_keys in Hkeys.
    apply andb_prop in Hkeys as [[[Hmk Hbe]%andb_prop Hca]%andb_prop Hcl].
    apply bool_decide_eq_true in Hbe, Hca, Hcl.
    split_and!; [by split|done|]. simpl.
    intros k c' Hk. destruct (decide (k = id)) as [->|Hne];
      simplify_map_eq; [|by eapply Hc].
    split_and!; [|done|done|done].
    intros mk Hid. rewrite Hid in Hmk.
    by apply bool_decide_eq_true in Hmk.
  - simplify_eq. apply exec_delete_references. by split_and!.
Qed.

(** X1.  However the six tables are written to, by inserts that the
    constraints accept and by deletions with their cascades, no
    reference ever dangles: every matching has its need, its candidate
    and its client, every need and every user has its client, and every
    candidature has its need, its candidate, its client and, unless the
    column is [NULL], its matching. *)
Theorem references_hold_in_every_state (ss : list sql) :
  references_hold (run_sql ss empty_db).
Proof.
  assert (H : ∀ d, references_hold d → references_hold (run_sql ss d)).
  { induction ss as [|s ss IH]; intros d Hd; [done|].
    simpl. apply IH. by apply exec_sql_references. }
  apply H. unfold references_hold, foreign_keys_hold.
  split_and!; intros k y Hk; simpl in Hk; by rewrite lookup_empty in Hk.
Qed.




End SqlFacts.

Section CascadeReach.
Import Schema Sql StoreData SqlData.

Implicit Types (d : db) (m : matching) (k : uuid) (x : deletion).


(** X3.  Deleting a client takes everything of that client with it: its
    row, its users, its needs, the matchings and candidatures that name
    it or that belong to one of its needs.  The candidates stay, and so
    does every matching that neither names the client nor belongs to one
    of its needs. *)
Theorem client_deletion_purges_tenant (c : uuid) (d : db) :
  let d' := delete_client c d in
  clients d' !! c = None
  ∧ (∀ k u, users d' !! k = Some u → user_client_id u ≠ c)
  ∧ (∀ k b, besoins d' !! k = Some b → besoin_client_id b ≠ c)
  ∧ (∀ k m, matchings d' !! k = Some m →
       client_id m ≠ c ∧ besoin_of_client d c (besoin_id m) = false)
  ∧ (∀ k a, candidatures d' !! k = Some a →
       cand_client_id a ≠ c
       ∧ besoin_of_client d c (cand_besoin_id a) = false)
  ∧ candidats d' = candidats d
  ∧ (∀ k m, matchings d !! k = Some m → client_id m ≠ c →
       besoin_of_client d c (besoin_id m) = false →
       matchings d' !! k = Some m).
Proof.
  intros d'. subst d'. simpl. split_and!.
  - apply lookup_delete_eq.
  - by intros k u [_ ?]%map_lookup_filter_Some.
  - by intros k b [_ ?]%map_lookup_filter_Some.
  - by intros k m [_ ?]%map_lookup_filter_Some.
  - intros k a. rewrite lookup_fmap.
    intros (a0 & [_ Ha]%map_lookup_filter_Some & ->)%fmap_Some.
    simpl in Ha.
    by destruct (set_null_matching_columns
      (filter (λ km, client_id km.2 ≠ c
         ∧ besoin_of_client d c (besoin_id km.2) = false) (matchings d))
      a0) as (-> & _ & ->).
  - done.
  - intros k m Hk Hc Hb. by apply map_lookup_filter_Some.
Qed.

Lemma client_deletion_purges_tenant_witness :
  let d := run_sql two_needs empty_db in
  matchings (delete_client 1 d) !! 30%positive = None
  ∧ matchings (delete_client 1 d) !! 31%positive
    = Some (scored 11 21 2 9050 1).
Proof.
  intros d.
  destruct (client_deletion_purges_tenant 1 d)
    as (_ & _ & _ & _ & _ & _ & Hstay).
  split; [reflexivity|].
  apply Hstay; [reflexivity|simpl; discriminate|reflexivity].
Defined.



(** X5.  A candidature that outlives a deletion keeps its need, its
    candidate and its client; its [matching_id] is what it was as long
    as that matching is still there, and [NULL] once the matching has
    gone. *)
Theorem surviving_candidature_loses_only_its_matching (x : deletion)
    (d : db) (k : uuid) (a a' : candidature) :
  candidatures d !! k = Some a →
  (∀ mk, matching_id a = Some mk → is_Some (matchings d !! mk)) →
  candidatures (exec_delete x d) !! k = Some a' →
  cand_besoin_id a' = cand_besoin_id a
  ∧ cand_candidat_id a' = cand_candidat_id a
  ∧ cand_client_id a' = cand_client_id a
  ∧ ∀ mk, matching_id a = Some mk →
      (is_Some (matchings (exec_delete x d) !! mk)
       ∧ matching_id a' = Some mk)
      ∨ (matchings (exec_delete x d) !! mk = None
         ∧ matching_id a' = None).
Proof.
  intros Hk Href.
  assert (Hnull : ∀ ms : gmap uuid matching,
    cand_besoin_id (set_null_matching ms a) = cand_besoin_id a
    ∧ cand_candidat_id (set_null_matching ms a) = cand_candidat_id a
    ∧ cand_client_id (set_null_matching ms a) = cand_client_id a
    ∧ ∀ mk, matching_id a = Some mk →
        (is_Some (ms !! mk) ∧ matching_id (set_null_matching ms a) = Some mk)
        ∨ (ms !! mk = None ∧ matching_id (set_null_matching ms a) = None)).
  { intros ms. destruct (set_null_matching_columns ms a) as (? & ? & ?).
    split_and!; [done|done|done|]. intros mk Hmk.
    unfold set_null_matching. rewrite Hmk.
    destruct (ms !! mk) eqn:Hms; [left|right]; by rewrite ?Hmk. }
  assert (Hsame : a' = a →
    cand_besoin_id a' = cand_besoin_id a
    ∧ cand_candidat_id a' = cand_candidat_id a
    ∧ cand_client_id a' = cand_client_id a
    ∧ ∀ mk, matching_id a = Some mk →
        (is_Some (matchings d !! mk) ∧ matching_id a' = Some mk)
        ∨ (matchings d !! mk = None ∧ matching_id a' = None)).
  { intros ->. split_and!; [done|done|done|]. intros mk Hmk. left.
    split; [by apply Href|done]. }
  destruct x as [cl|q|ca|b|q]; simpl.
  - rewrite lookup_fmap.
    intros (a0 & [Ha0 _]%map_lookup_filter_Some & ->)%fmap_Some.
    assert (a0 = a) as -> by congruence. apply Hnull.
  - intros Ha'. apply Hsame. congruence.
  - rewrite lookup_fmap.
    intros (a0 & [Ha0 _]%map_lookup_filter_Some & ->)%fmap_Some.
    assert (a0 = a) as -> by congruence. apply Hnull.
  - rewrite lookup_fmap.
    intros (a0 & [Ha0 _]%map_lookup_filter_Some & ->)%fmap_Some.
    assert (a0 = a) as -> by congruence. apply Hnull.
  - intros [_ Ha']%lookup_delete_Some. apply Hsame. congruence.
Qed.

Lemma surviving_candidature_loses_only_its_matching_witness :
  let d := run_sql two_needs empty_db in
  candidatures (delete_besoin 10 d) !! 41%positive
  = Some (application None 11 21 2)
  ∧ matchings (delete_besoin 10 d) !! 30%positive = None.
Proof.
  intros d.
  assert (Hk : candidatures d !! 41%positive
               = Some (application (Some 30%positive) 11 21 2))
    by reflexivity.
  assert (Hk' : candidatures (exec_delete (DeleteBesoin 10) d)
                  !! 41%positive = Some (application None 11 21 2))
    by reflexivity.
  split; [exact Hk'|].
  assert (Href : ∀ mk,
            matching_id (application (Some 30%positive) 11 21 2) = Some mk →
            is_Some (matchings d !! mk)).
  { intros mk [= <-]. exists (scored 10 20 1 6200 1).
    vm_compute. reflexivity. }
  destruct (surviving_candidature_loses_only_its_matching
              (DeleteBesoin 10) d 41 _ _ Hk Href Hk')
    as (_ & _ & _ & Hm).
  destruct (Hm 30%positive eq_refl) as [[_ Habs]|[Hgone _]];
    [discriminate Habs|exact Hgone].
Defined.

(** X6.  An accepted [INSERT INTO matchings] adds exactly the row it was
    given, under the key it was given: the row can be read back, every
    other matching and every other table is as before, and from then on
    the pair is taken: a further [INSERT] for the same need and
    candidate is refused, under any key and with any scores. *)
Theorem insert_matching_round_trip (id : uuid) (m : matching) (d d' : db) :
  insert_matching id m d = Some d' →
  matchings d' !! id = Some m
  ∧ (∀ k, k ≠ id → matchings d' !! k = matchings d !! k)
  ∧ size (matchings d') = S (size (matchings d))
  ∧ clients d' = clients d ∧ users d' = users d
  ∧ candidats d' = candidats d ∧ besoins d' = besoins d
  ∧ candidatures d' = candidatures d
  ∧ ∀ id2 m2, besoin_id m2 = besoin_id m →
      candidat_id m2 = candidat_id m →
      insert_matching id2 m2 d' = None.
Proof.
  intros (-> & Hfresh & _ & _)%insert_matching_Some. simpl.
  split_and!; try done.
  - apply lookup_insert_eq.
  - intros k Hk. by apply lookup_insert_ne.
  - by apply map_size_insert_None.
  - intros id2 m2 Hb Hc.
    apply (insert_matching_duplicate id2 m2 _ id m); [|done|done].
    simpl. apply lookup_insert_eq.
Qed.

Lemma insert_matching_round_trip_witness :
  let d := run_sql two_needs empty_db in
  ∃ d', insert_matching 32 (scored 10 21 1 4000 2) d = Some d'
        ∧ matchings d' !! 32%positive = Some (scored 10 21 1 4000 2)
        ∧ insert_matching 33 (scored 10 21 1 9900 1) d' = None.
Proof.
  intros d.
  assert (Hex : ∃ d', insert_matching 32 (scored 10 21 1 4000 2) d
                      = Some d')
    by (vm_compute; eexists; reflexivity).
  destruct Hex as [d' Hd']. exists d'.
  destruct (insert_matching_round_trip 32 _ d d' Hd')
    as (Hread & _ & _ & _ & _ & _ & _ & _ & Htaken).
  split_and!; [exact Hd'|exact Hread|].
  apply Htaken; reflexivity.
Defined.

End CascadeReach.

(* ===================================================================== *)
(** * More on the upload page                                             *)
(* ===================================================================== *)

Section CsvPreview.
Import Js Upload UploadMore UploadProps UploadMoreProps.

Implicit Types (s : string) (row : gmap string string).

Lemma skip_spaces_front s : starts_with_space (skip_spaces s) = false.
Proof.
  induction s as [|c s IH]; simpl; [done|].
  destruct (is_space c) eqn:Hc; [done|]. simpl. by rewrite Hc.
Qed.

Lemma trimEnd_front s :
  starts_with_space s = false → starts_with_space (trimEnd s) = false.
Proof.
  destruct s as [|c s]; simpl; [done|]. intros Hc.
  destruct (trimEnd s); simpl; [|done]. by rewrite Hc.
Qed.

Lemma trimEnd_back s : ends_with_space (trimEnd s) = false.
Proof.
  induction s as [|c s IH]; simpl; [done|].
  destruct (trimEnd s) as [|c' r] eqn:Hr.
  - destruct (is_space c) eqn:Hc; simpl; [done|]. by rewrite Hc.
  - exact IH.
Qed.

(** [trim] leaves no white space at either end. *)
Lemma trim_clean s :
  starts_with_space (trim s) = false ∧ ends_with_space (trim s) = false.
Proof.
  unfold trim. split; [|apply trimEnd_back].
  apply trimEnd_front, skip_spaces_front.
Qed.

Lemma cell_clean values i :
  starts_with_space (cell values i) = false
  ∧ ends_with_space (cell values i) = false.
Proof.
  unfold cell. destruct (values !! i) as [v|]; [|done].
  case_bool_decide; [done|]. apply trim_clean.
Qed.

Lemma fill_row_keys headers i values row key :
  is_Some (fill_row headers i values row !! key)
  ↔ is_Some (row !! key) ∨ (key ∈ headers ∧ key ≠ "__proto__").
Proof.
  revert i row. induction headers as [|h hs IH]; intros i row; simpl.
  - split; [by left|]. intros [?|[?%elem_of_nil _]]; done.
  - rewrite IH. unfold set_prop. case_bool_decide as Hp.
    + subst h. split.
      * intros [?|[? ?]]; [by left|]. right. split; [by right|done].
      * intros [?|[[->|?]%elem_of_cons ?]]; [by left|done|by right].
    + rewrite lookup_insert_is_Some'. split.
      * intros [[->|?]|[? ?]].
        -- right. split; [by left|done].
        -- by left.
        -- right. split; [by right|done].
      * intros [?|[[->|?]%elem_of_cons ?]].
        -- left. by right.
        -- left. by left.
        -- by right.
Qed.

Lemma fill_row_values headers i values row key v :
  fill_row headers i values row !! key = Some v →
  row !! key = Some v ∨ ∃ j, v = cell values j.
Proof.
  revert i row. induction headers as [|h hs IH]; intros i row; simpl.
  - by left.
  - intros [Hv|?]%IH; [|by right].
    unfold set_prop in Hv. case_bool_decide; [by left|].
    destruct (decide (h = key)) as [->|Hne]; simplify_map_eq.
    + right. by exists i.
    + by left.
Qed.

(** X7.  [parseCSV] previews at most five lines.  A content with fewer
    than two non-blank lines gives no row; otherwise there is one row per
    non-blank line after the first, up to five.  Every row has exactly
    the columns named in the header line (cut at commas and semicolons,
    trimmed), whether its line has fewer or more fields; and no cell
    begins or ends with white space. *)
Theorem parseCSV_shape (content : string) :
  let lines := nonblank_lines content in
  length (parseCSV content)
  = (if (length lines <? 2)%nat then 0 else 5 `min` (length lines - 1))%nat
  ∧ (length (parseCSV content) ≤ 5)%nat
  ∧ ∀ row, row ∈ parseCSV content →
      (∀ key, is_Some (row !! key)
              ↔ key ∈ headers_of lines ∧ key ≠ "__proto__")
      ∧ ∀ key v, row !! key = Some v →
          starts_with_space v = false ∧ ends_with_space v = false.
Proof.
  intros lines. unfold parseCSV. fold lines.
  destruct (length lines <? 2)%nat eqn:Hn.
  - split_and!; [done|simpl; lia|]. by intros row ?%elem_of_nil.
  - assert (Hlen : length ((λ line, fill_row (headers_of lines) 0
                     (split_where comma_or_semicolon line) ∅)
                     <$> take 5 (drop 1 lines))
                   = (5 `min` (length lines - 1))%nat).
    { by rewrite length_fmap, length_take, length_drop. }
    split_and!; [done|rewrite Hlen; lia|].
    intros row (line & -> & _)%list_elem_of_fmap. split.
    + intros key. rewrite fill_row_keys, lookup_empty.
      split; [intros [[? [=]]|?]; done|by right].
    + intros key v [Hv|[j ->]]%fill_row_values.
      * by rewrite lookup_empty in Hv.
      * apply cell_clean.
Qed.

Lemma parseCSV_shape_witness :
  length (nonblank_lines seven_workers) = 8%nat
  ∧ length (parseCSV seven_workers) = 5%nat
  ∧ parseCSV seven_workers !! 1%nat
    = Some {[ "nom" := "Bob"; "ville" := "Paris"; "age" := "30" ]}.
Proof.
  destruct (parseCSV_shape seven_workers) as (Hlen & _ & _).
  split_and!; [reflexivity| |reflexivity].
  rewrite Hlen. reflexivity.
Defined.

Lemma endsWith_suffix s suffix :
  endsWith s suffix = true → ∃ stem, s = stem +:+ suffix.
Proof.
  induction s as [|c s IH]; simpl.
  - rewrite orb_false_r. intros <-%bool_decide_eq_true. by exists "".
  - intros [<-%bool_decide_eq_true|Hs]%orb_prop.
    + by exists "".
    + destruct (IH Hs) as [stem ->]. by exists (String c stem).
Qed.

Lemma endsWith_upper_case stem : endsWith (stem +:+ ".CSV") ".csv" = false.
Proof.
  induction stem as [|c stem IH]; [done|].
  change (String c stem +:+ ".CSV") with (String c (stem +:+ ".CSV")).
  simpl. rewrite IH, orb_false_r. apply bool_decide_eq_false.
  intros [= _ Heq].
  destruct stem as [|? [|? [|? [|? ?]]]]; cbv in Heq; discriminate Heq.
Qed.

(** X8.  The preview and the validation do not look at the name in the
    same way.  A preview is shown only for a name that ends in [.csv],
    in lower case, and a content with a header line and a data line;
    such a name always has the extension the validation accepts.  A name
    that ends in [.CSV] passes the validation as well, whatever comes
    before, but is never previewed. *)
Theorem preview_needs_lower_case_csv (content stem : string) (f : file) :
  (preview_shown content (name f) = true →
     extension f = ".csv"
     ∧ ((validateFile f).1 = true ↔ (size f <= 10485760)%N)
     ∧ (2 ≤ length (nonblank_lines content))%nat)
  ∧ (validateFile {| name := stem +:+ ".CSV"; size := size f |}).1
    = (validateFile {| name := stem +:+ ".csv"; size := size f |}).1
  ∧ extension {| name := stem +:+ ".CSV"; size := size f |} = ".csv"
  ∧ preview_shown content (stem +:+ ".CSV") = false.
Proof.
  assert (Hext : ∀ st e n, e = "csv" ∨ e = "CSV" →
            extension {| name := st +:+ String "." e; size := n |}
            = ".csv").
  { intros st e n He. unfold extension. simpl name.
    rewrite pop_split_after_last_dot by (by destruct He as [->| ->]).
    by destruct He as [->| ->]. }
  split_and!.
  - unfold preview_shown, parseFileContent.
    destruct (endsWith (name f) ".csv") eqn:Hends; [|done].
    destruct (endsWith_suffix _ _ Hends) as [st Hst].
    assert (Hf : extension f = ".csv").
    { destruct f as [nm sz]. simpl in Hst. subst nm.
      apply (Hext st "csv" sz). by left. }
    intros Hrows. split_and!; [done| |].
    + rewrite validateFile_true, Hf.
      change (10 * 1024 * 1024)%N with 10485760%N.
      unfold Config.ALLOWED_EXTENSIONS. split; [by intros [_ ?]|].
      intros ?. split; [left|done].
    + unfold parseCSV in Hrows.
      destruct (length (nonblank_lines content) <? 2)%nat eqn:Hn; [done|].
      apply Nat.ltb_ge in Hn. done.
  - assert (Hiff : ∀ g1 g2, extension g1 = extension g2 →
              size g1 = size g2 →
              (validateFile g1).1 = (validateFile g2).1).
    { intros g1 g2 He Hs.
      destruct (validateFile g1).1 eqn:H1.
      - symmetry. apply validateFile_true. rewrite <- He, <- Hs.
        by apply validateFile_true.
      - destruct (validateFile g2).1 eqn:H2; [|done].
        apply validateFile_true in H2. rewrite <- He, <- Hs in H2.
        apply validateFile_true in H2. congruence. }
    apply Hiff; [|done].
    rewrite (Hext stem "CSV"), (Hext stem "csv"); auto.
  - apply (Hext stem "CSV"). by right.
  - unfold preview_shown, parseFileContent.
    by rewrite endsWith_upper_case.
Qed.

Lemma preview_needs_lower_case_csv_witness :
  preview_shown seven_workers (name csv_file) = true
  ∧ extension csv_file = ".csv"
  ∧ (validateFile {| name := "LISTE.CSV"; size := 2048 |}).1 = true
  ∧ preview_shown seven_workers "LISTE.CSV" = false.
Proof.
  assert (Hshown : preview_shown seven_workers (name csv_file) = true)
    by reflexivity.
  destruct (preview_needs_lower_case_csv seven_workers "LISTE" csv_file)
    as (Hlower & _ & _ & Hupper).
  destruct (Hlower Hshown) as (Hext & _ & _).
  split_and!; [exact Hshown|exact Hext|reflexivity|exact Hupper].
Defined.

End CsvPreview.

Section UploadFlow.
Import Js Upload UploadMore UploadMoreProps.

Implicit Types (st : UploadManager) (f : file).






End UploadFlow.

(* ===================================================================== *)
(** * More on the matching page                                           *)
(* ===================================================================== *)

Section RunLifeCycle.
Import Js Matching RunProps RunMoreProps.

Implicit Types (w : world) (e : event) (o : outcome).

Lemma clearProgressTimer_intervals w id :
  progressTimer (mgr w) = Some id →
  page (clearProgressTimer w) = page w
  ∧ intervals (clearProgressTimer w) = delete id (intervals w).
Proof. intros Hid. unfold clearProgressTimer. by rewrite Hid. Qed.

Lemma on_finally_fields w :
  isRunning (mgr (on_finally w)) = false
  ∧ runBtn_disabled (page (on_finally w)) = false
  ∧ intervals (on_finally w) = intervals w
  ∧ in_flight (on_finally w) = in_flight w
  ∧ mconfig (mgr (on_finally w)) = mconfig (mgr w)
  ∧ results (mgr (on_finally w)) = results (mgr w)
  ∧ progress_width (page (on_finally w)) = progress_width (page w)
  ∧ progress_text (page (on_finally w)) = progress_text (page w).
Proof. by split_and!. Qed.

Lemma on_error_fields msg w id :
  progressTimer (mgr w) = Some id →
  mgr (on_error msg w) = mgr w
  ∧ intervals (on_error msg w) = delete id (intervals w)
  ∧ in_flight (on_error msg w) = in_flight w
  ∧ progress_width (page (on_error msg w)) = 0
  ∧ progress_text (page (on_error msg w)) = "Erreur".
Proof.
  intros Hid. unfold on_error.
  set (w1 := tell _ w).
  destruct (clearProgressTimer_frame w1) as (Hm & Hq & _).
  destruct (clearProgressTimer_intervals w1 id Hid) as (_ & Hi).
  cbn [mgr intervals in_flight page progress_width progress_text].
  by rewrite Hm, Hq, Hi.
Qed.

(** What the end of a run does to the manager and to the page. *)
Lemma settle_effect o w id :
  in_flight w ≠ [] → progressTimer (mgr w) = Some id →
  isRunning (mgr (settle o w)) = false
  ∧ runBtn_disabled (page (settle o w)) = false
  ∧ intervals (settle o w) = delete id (intervals w)
  ∧ in_flight (settle o w) = tail (in_flight w)
  ∧ mconfig (mgr (settle o w)) = mconfig (mgr w)
  ∧ match o with
    | Rejected _ =>
        results (mgr (settle o w)) = results (mgr w)
        ∧ progress_width (page (settle o w)) = 0
        ∧ progress_text (page (settle o w)) = "Erreur"
    | Resolved response =>
        results (mgr (settle o w)) = response
        ∧ match summary response with
          | Some _ =>
              progress_width (page (settle o w)) = 100
              ∧ progress_text (page (settle o w)) = "Matching terminé !"
          | None =>
              progress_width (page (settle o w)) = 0
              ∧ progress_text (page (settle o w)) = "Erreur"
          end
    end.
Proof.
  intros Hq Hid. unfold settle.
  destruct (in_flight w) as [|body rest] eqn:Hw; [done|]. clear Hq.
  set (w0 := {| mgr := mgr w; page := page w; intervals := intervals w;
                next_timer := next_timer w; in_flight := rest;
                told := told w; shown := shown w |}).
  assert (Hid0 : progressTimer (mgr w0) = Some id) by exact Hid.
  destruct o as [response|msg].
  - destruct (clearProgressTimer_frame w0) as (Hm1 & Hq1 & _).
    destruct (clearProgressTimer_intervals w0 id Hid0) as (Hp1 & Hi1).
    set (w1 := clearProgressTimer w0) in *.
    set (w2 := {| mgr := {| mconfig := mconfig (mgr w1);
                            isRunning := isRunning (mgr w1);
                            results := response;
                            progressTimer := progressTimer (mgr w1) |};
                  page := {| runBtn_disabled := runBtn_disabled (page w1);
                             progress_hidden := progress_hidden (page w1);
                             progress_width := 100;
                             progress_text := "Matching terminé !" |};
                  intervals := intervals w1; next_timer := next_timer w1;
                  in_flight := in_flight w1; told := told w1;
                  shown := shown w1 |}).
    assert (Hid2 : progressTimer (mgr w2) = Some id)
      by (cbn [w2 mgr progressTimer]; by rewrite Hm1).
    destruct (summary response) as [[[b m] t]|].
    + destruct (on_finally_fields (tell (ToastSummary b m t) w2))
        as (-> & -> & -> & -> & -> & -> & -> & ->).
      cbn [tell w2 mgr page intervals in_flight mconfig results
           progress_width progress_text].
      rewrite Hm1, Hq1, Hi1. by split_and!.
    + destruct (on_finally_fields (on_error "TypeError" w2))
        as (-> & -> & -> & -> & -> & -> & -> & ->).
      destruct (on_error_fields "TypeError" w2 id Hid2)
        as (-> & -> & -> & -> & ->).
      cbn [w2 mgr page intervals in_flight mconfig results].
      rewrite Hm1, Hq1, Hi1, delete_delete_eq. by split_and!.
  - destruct (on_finally_fields (on_error msg w0))
      as (-> & -> & -> & -> & -> & -> & -> & ->).
    destruct (on_error_fields msg w0 id Hid0) as (-> & -> & -> & -> & ->).
    by split_and!.
Qed.
Lemma step_page_follows_flag e w :
  page_follows_flag w → page_follows_flag (step e w).
Proof.
  intros (Hbtn & Hq & Ht).
  assert (Hq' : flag_matches_requests (step e w))
    by by apply step_flag_matches_requests.
  unfold page_follows_flag. split_and!; [|done|]; clear Hq'.
  - destruct e as [confirmed| |c| |id|o]; simpl; try done.
    + unfold runMatching. destruct (isRunning (mgr w)) eqn:Hr; simpl.
      { by rewrite Hr. }
      destruct confirmed; simpl; [done|by rewrite Hr].
    + unfold previewMatching. destruct (isRunning (mgr w)) eqn:Hr; simpl;
        by rewrite Hr.
    + destruct (tick_frame id w) as (-> & _ & _). unfold tick.
      destruct (intervals w !! id) as [t|]; [|done].
      by destruct (steps !! currentStep t) as [[??]|].
    + destruct (in_flight w) as [|body rest] eqn:Hw.
      { unfold settle. by rewrite Hw. }
      unfold flag_matches_requests in Hq. rewrite Hw in Hq.
      destruct (isRunning (mgr w)) eqn:Hr; [|done].
      destruct Ht as (id0 & t & Hid & _).
      destruct (settle_effect o w id0) as (-> & -> & _);
        [by rewrite Hw|done|done].
  - destruct e as [confirmed| |c| |id|o]; simpl; try done.
    + unfold runMatching. destruct (isRunning (mgr w)) eqn:Hr; simpl;
        [by rewrite Hr|].
      destruct confirmed; simpl; [|by rewrite Hr].
      rewrite Ht.
      exists (next_timer w),
        {| delay_ms := 1500; fired := 0; currentStep := 0 |}.
      split_and!; [done| |done]. apply insert_empty.
    + unfold previewMatching.
      destruct (isRunning (mgr w)) eqn:Hr; simpl; by rewrite Hr.
    + destruct (tick_frame id w) as (-> & _ & _). unfold tick.
      destruct (isRunning (mgr w)) eqn:Hr.
      * destruct Ht as (id0 & t & Hid & Hiv & Hdelay).
        destruct (decide (id = id0)) as [->|Hne].
        -- rewrite Hiv, lookup_singleton_eq.
           destruct (steps !! currentStep t) as [[p txt]|]; simpl;
             exists id0; eexists;
             (split_and!; [done|apply insert_singleton_eq|done]).
        -- rewrite Hiv, lookup_singleton_ne by done. by exists id0, t.
      * by rewrite Ht, lookup_empty.
    + destruct (in_flight w) as [|body rest] eqn:Hw.
      { unfold settle. by rewrite Hw. }
      unfold flag_matches_requests in Hq. rewrite Hw in Hq.
      destruct (isRunning (mgr w)) eqn:Hr; [|done].
      destruct Ht as (id0 & t & Hid & Hiv & Hdelay).
      destruct (settle_effect o w id0) as (-> & _ & -> & _);
        [by rewrite Hw|done|].
      rewrite Hiv. apply delete_singleton_eq.
Qed.

Lemma play_page_follows_flag es w :
  page_follows_flag w → page_follows_flag (play es w).
Proof.
  revert w. induction es as [|e es IH]; intros w Hw; [done|].
  simpl. apply IH. by apply step_page_follows_flag.
Qed.

Lemma reached_page_follows_flag es : page_follows_flag (play es init).
Proof. apply play_page_follows_flag. split_and!; done. Qed.

(** X11.  Whatever happens on the matching page, the run button is
    disabled exactly while a run is in progress; while idle no progress
    timer is alive and no request is pending; while running there is
    exactly one timer, the one [progressTimer] names, with a period of
    1500 ms, and exactly one pending request.  No timer is ever left
    behind by a finished run. *)
Theorem page_follows_running_flag (es : list event) :
  let w := play es init in
  runBtn_disabled (page w) = isRunning (mgr w)
  ∧ (isRunning (mgr w) = false → intervals w = ∅ ∧ in_flight w = [])
  ∧ (isRunning (mgr w) = true →
     (∃ id t, progressTimer (mgr w) = Some id
              ∧ intervals w = {[ id := t ]} ∧ delay_ms t = 1500)
     ∧ length (in_flight w) = 1%nat).
Proof.
  intros w.
  destruct (reached_page_follows_flag es) as (Hbtn & Hq & Ht).
  fold w in Hbtn, Hq, Ht. unfold flag_matches_requests in Hq.
  split_and!; [done|..]; intros Hr; rewrite Hr in *; split; try done.
  by apply nil_length_inv.
Qed.

Lemma page_follows_running_flag_witness :
  let busy := play [RunClicked true; Tick 0] init in
  let done_ := play [RunClicked true; Tick 0; Settled (Rejected "timeout");
                     Tick 0] init in
  isRunning (mgr busy) = true
  ∧ length (in_flight busy) = 1%nat
  ∧ isRunning (mgr done_) = false
  ∧ intervals done_ = ∅.
Proof.
  intros busy done_.
  assert (Hb : isRunning (mgr busy) = true) by reflexivity.
  assert (Hd : isRunning (mgr done_) = false) by reflexivity.
  destruct (page_follows_running_flag [RunClicked true; Tick 0])
    as (_ & _ & Hrun).
  destruct (page_follows_running_flag
              [RunClicked true; Tick 0; Settled (Rejected "timeout");
               Tick 0]) as (_ & Hidle & _).
  split_and!; [exact Hb|exact (proj2 (Hrun Hb))|exact Hd|
               exact (proj1 (Hidle Hd))].
Defined.

(** X12.  However a run ends, it ends: when the pending request is
    answered or fails, the manager is idle again, the button is enabled,
    the timer is cleared, and the next click starts a new run with the
    configuration of the moment.  An answer is kept in [results], a
    failure leaves [results] as it was; the bar goes to 100 % and
    "Matching terminé !" for an answer whose members can be read, and to
    0 % and "Erreur" for a failure and for a [null] answer, which is
    stored all the same. *)
Theorem run_always_ends (es : list event) (o : outcome) :
  let w := play es init in
  let w' := settle o w in
  isRunning (mgr w) = true →
  isRunning (mgr w') = false
  ∧ runBtn_disabled (page w') = false
  ∧ intervals w' = ∅ ∧ in_flight w' = []
  ∧ in_flight (runMatching true w') = [requestData (mconfig (mgr w))]
  ∧ match o with
    | Rejected _ =>
        results (mgr w') = results (mgr w)
        ∧ progress_width (page w') = 0
        ∧ progress_text (page w') = "Erreur"
    | Resolved response =>
        results (mgr w') = response
        ∧ match response with
          | JNull | JUndefined =>
              progress_width (page w') = 0
              ∧ progress_text (page w') = "Erreur"
          | _ =>
              progress_width (page w') = 100
              ∧ progress_text (page w') = "Matching terminé !"
          end
    end.
Proof.
  intros w w' Hr.
  destruct (reached_page_follows_flag es) as (_ & Hlen & Ht).
  fold w in Hlen, Ht. unfold flag_matches_requests in Hlen.
  rewrite Hr in Hlen, Ht. destruct Ht as (id & t & Hid & Hiv & _).
  assert (Hq : in_flight w ≠ []) by (by intros Hnil; rewrite Hnil in Hlen).
  destruct (settle_effect o w id Hq Hid)
    as (Hrun' & Hbtn & Hint & Hfl & Hcfg & Hres).
  fold w' in Hrun', Hbtn, Hint, Hfl, Hcfg, Hres.
  assert (Hempty : in_flight w' = []).
  { rewrite Hfl. destruct (in_flight w) as [|? [|??]]; done. }
  split_and!; [done|done| |done| |].
  - rewrite Hint, Hiv. apply delete_singleton_eq.
  - unfold runMatching. rewrite Hrun'. simpl. by rewrite Hempty, Hcfg.
  - destruct o as [response|msg]; [|done].
    destruct Hres as [Hres Hbar]. split; [done|].
    by destruct response.
Qed.

Lemma run_always_ends_witness :
  let w := play [RunClicked true; Tick 0] init in
  isRunning (mgr w) = true
  ∧ results (mgr (settle (Resolved answer) w)) = answer
  ∧ progress_width (page (settle (Resolved answer) w)) = 100
  ∧ isRunning (mgr (settle (Resolved JNull) w)) = false
  ∧ progress_text (page (settle (Resolved JNull) w)) = "Erreur".
Proof.
  intros w.
  assert (Hr : isRunning (mgr w) = true) by reflexivity.
  destruct (run_always_ends [RunClicked true; Tick 0] (Resolved answer) Hr)
    as (_ & _ & _ & _ & _ & Hres & Hbar & _).
  destruct (run_always_ends [RunClicked true; Tick 0] (Resolved JNull) Hr)
    as (Hidle & _ & _ & _ & _ & _ & _ & Htext).
  split_and!; [exact Hr|exact Hres|exact Hbar|exact Hidle|exact Htext].
Defined.

End RunLifeCycle.

(* ===================================================================== *)
(** * More on the results page                                            *)
(* ===================================================================== *)

Section ScoreBands.
Import Js Results ResultsMore ResultsMoreData.

Lemma Math_round_bounds (x : Q) :
  (inject_Z (Math_round x) - (1 # 2) <= x)%Q
  ∧ (x < inject_Z (Math_round x) + (1 # 2))%Q.
Proof.
  unfold Math_round.
  pose proof (Qfloor_le (x + (1 # 2))) as Hle.
  pose proof (Qlt_floor (x + (1 # 2))) as Hlt.
  rewrite inject_Z_plus in Hlt. change (inject_Z 1) with 1%Q in Hlt.
  split; lra.
Qed.

(** A threshold is passed by the rounded score exactly when it is
    passed by the score itself, unless the rounded score is the
    threshold. *)
Lemma rounded_passes (x : Q) (t : Z) :
  Math_round x ≠ t →
  Qle_bool (inject_Z t) (inject_Z (Math_round x))
  = Qle_bool (inject_Z t) x.
Proof.
  intros Hne. destruct (Math_round_bounds x) as [Hlo Hhi].
  apply eq_true_iff_eq. rewrite !Qle_bool_iff, <- Zle_Qle.
  split.
  - intros Hle. assert (t + 1 <= Math_round x) as H1 by lia.
    rewrite Zle_Qle, inject_Z_plus in H1.
    change (inject_Z 1) with 1%Q in H1. lra.
  - intros Hle. destruct (Z_le_gt_dec t (Math_round x)) as [|Hgt];
      [done|].
    assert (Math_round x + 1 <= t) as H1 by lia.
    rewrite Zle_Qle, inject_Z_plus in H1.
    change (inject_Z 1) with 1%Q in H1. lra.
Qed.

(** X14.  The three places that rate a score agree on the bands: below
    50, from 50, from 75, from 90.  The colour of results.js is the
    colour app.js takes from [config.SCORE_COLORS], and the status is
    the label of that entry in lower case.  In a line of the table the
    status is computed before the score is rounded and the colour of
    the bar after: the two can only differ when the score shown is
    exactly 50, 75 or 90. *)
Theorem score_bands_agree (x : Q) (m : api_matching) :
  getScoreColor x = sc_color (app_getScoreColor x)
  ∧ getStatus x = toLowerCase (sc_label (app_getScoreColor x))
  ∧ (status (process m) = getStatus (inject_Z (score (process m)))
     ∨ score (process m) ∈ [50; 75; 90]).
Proof.
  split_and!.
  - unfold getScoreColor, app_getScoreColor.
    by repeat destruct (Qle_bool _ _).
  - unfold getStatus, app_getScoreColor.
    by repeat destruct (Qle_bool _ _).
  - set (y := (m_score_total m * 100)%Q).
    change (status (process m)) with (getStatus y).
    change (score (process m)) with (Math_round y).
    destruct (decide (Math_round y = 90)) as [->|H90];
      [right; set_solver|].
    destruct (decide (Math_round y = 75)) as [->|H75];
      [right; set_solver|].
    destruct (decide (Math_round y = 50)) as [->|H50];
      [right; set_solver|].
    left. unfold getStatus.
    change 90%Q with (inject_Z 90). change 75%Q with (inject_Z 75).
    change 50%Q with (inject_Z 50).
    by rewrite !rounded_passes.
Qed.

Lemma score_bands_agree_witness :
  score (process served_89_5) = 90
  ∧ status (process served_89_5) = "bon"
  ∧ getStatus (inject_Z (score (process served_89_5))) = "excellent".
Proof.
  destruct (score_bands_agree 0 served_89_5) as (_ & _ & [Heq|Hin]).
  - exfalso. vm_compute in Heq. discriminate Heq.
  - split_and!; reflexivity.
Defined.

End ScoreBands.

Section Pages.
Import Js Results ResultsMore ResultsData PagesData.

Implicit Types (st : ResultsManager) (p : Z).

(** The number of pages is the least number of pages that hold all the
    lines. *)
Lemma totalPages_bounds st :
  0 < itemsPerPage st →
  (totalPages st - 1) * itemsPerPage st
    < Z.of_nat (length (filteredResults st))
    ≤ totalPages st * itemsPerPage st.
Proof.
  intros Hipp. unfold totalPages.
  set (len := Z.of_nat (length (filteredResults st))).
  set (x := (inject_Z len / inject_Z (itemsPerPage st))%Q).
  assert (Hi : (0 < inject_Z (itemsPerPage st))%Q)
    by (by rewrite <- (Zlt_Qlt 0)).
  assert (Hx : (x * inject_Z (itemsPerPage st) == inject_Z len)%Q).
  { unfold x. field. lra. }
  pose proof (Qle_ceiling x) as Hle.
  pose proof (Qceiling_lt x) as Hlt.
  split.
  - rewrite Zlt_Qlt, inject_Z_mult, <- Hx.
    apply Qmult_lt_compat_r; done.
  - rewrite Zle_Qle, inject_Z_mult, <- Hx.
    apply Qmult_le_compat_r; [done|lra].
Qed.

Lemma take_all_there {A} (n : nat) (l : list A) :
  take (n `min` length l) l = take n l.
Proof.
  destruct (decide (n ≤ length l)%nat).
  - by rewrite Nat.min_l.
  - rewrite Nat.min_r, take_ge, take_ge by lia. done.
Qed.

(** On a page from the first on, [slice] is a [drop] and a [take]. *)
Lemma pageResults_goToPage st p :
  0 < itemsPerPage st → 1 ≤ p →
  pageResults (goToPage p st)
  = take (Z.to_nat (itemsPerPage st))
      (drop (Z.to_nat ((p - 1) * itemsPerPage st)) (filteredResults st)).
Proof.
  intros Hipp Hp. unfold pageResults, goToPage, slice. simpl.
  set (l := filteredResults st). set (ipp := itemsPerPage st) in *.
  assert (0 ≤ (p - 1) * ipp) as Hstart by nia.
  rewrite (proj2 (Z.ltb_ge _ _)) by lia.
  rewrite (proj2 (Z.ltb_ge _ _)) by lia.
  destruct (decide ((p - 1) * ipp ≤ Z.of_nat (length l))) as [Hin|Hout].
  - rewrite (Z.min_l ((p - 1) * ipp)) by lia.
    rewrite <- (take_all_there (Z.to_nat ipp)). f_equal.
    rewrite length_drop. lia.
  - rewrite !drop_ge by lia. by rewrite !take_nil.
Qed.

Lemma pages_concat {A} (ipp : Z) (l : list A) (n : nat) :
  0 < ipp →
  concat ((λ p, take (Z.to_nat ipp) (drop (Z.to_nat ((p - 1) * ipp)) l))
            <$> seqZ 1 (Z.of_nat n))
  = take (n * Z.to_nat ipp) l.
Proof.
  intros Hipp. induction n as [|n IH]; [done|].
  rewrite seqZ_S.
  rewrite fmap_app, concat_app, IH. simpl. rewrite app_nil_r.
  replace (Z.to_nat ((1 + Z.of_nat n - 1) * ipp))
    with (n * Z.to_nat ipp)%nat by nia.
  rewrite take_take_drop. f_equal. lia.
Qed.

Lemma page_in_range_has_lines st (p : Z) :
  0 < itemsPerPage st → 1 ≤ p ≤ totalPages st →
  pageResults (goToPage p st) ≠ [].
Proof.
  intros Hipp Hp. pose proof (totalPages_bounds st Hipp) as [Hlo Hhi].
  rewrite pageResults_goToPage by lia.
  intros Hnil%(f_equal length). rewrite length_take, length_drop in Hnil.
  simpl in Hnil. nia.
Qed.

(** X15.  The pages of the table cut the filtered list into consecutive
    pieces of [itemsPerPage] lines: put one after the other, pages 1 to
    [totalPages] give back the list, no line being lost or shown twice;
    no page holds more than [itemsPerPage] lines, every page up to the
    last holds at least one, and a page beyond the last is empty. *)
Theorem pages_partition_the_results st :
  0 < itemsPerPage st →
  concat ((λ p, pageResults (goToPage p st)) <$> seqZ 1 (totalPages st))
  = filteredResults st
  ∧ (∀ p, 1 ≤ p →
       Z.of_nat (length (pageResults (goToPage p st))) ≤ itemsPerPage st)
  ∧ (∀ p, 1 ≤ p ≤ totalPages st → pageResults (goToPage p st) ≠ [])
  ∧ (∀ p, totalPages st < p → pageResults (goToPage p st) = []).
Proof.
  intros Hipp. pose proof (totalPages_bounds st Hipp) as [Hlo Hhi].
  assert (0 ≤ totalPages st) as HT by nia.
  split_and!.
  - assert (Heq : (λ p, pageResults (goToPage p st))
                    <$> seqZ 1 (totalPages st)
                  = (λ p, take (Z.to_nat (itemsPerPage st))
                            (drop (Z.to_nat ((p - 1) * itemsPerPage st))
                               (filteredResults st)))
                      <$> seqZ 1 (totalPages st)).
    { apply list_fmap_ext.
      intros i p Hp%list_elem_of_lookup_2%elem_of_seqZ.
      apply pageResults_goToPage; [done|lia]. }
    rewrite Heq, <- (Z2Nat.id (totalPages st)) at 1 by done.
    rewrite pages_concat by done. apply take_ge. nia.
  - intros p Hp. rewrite pageResults_goToPage by done.
    rewrite length_take. lia.
  - intros p Hp. by apply page_in_range_has_lines.
  - intros p Hp. rewrite pageResults_goToPage by lia.
    rewrite drop_ge; [apply take_nil|]. nia.
Qed.

Lemma pages_partition_the_results_witness :
  totalPages forty_five = 3
  ∧ length (pageResults (goToPage 3 forty_five)) = 5%nat
  ∧ pageResults (goToPage 4 forty_five) = [].
Proof.
  assert (Hipp : 0 < itemsPerPage forty_five) by reflexivity.
  destruct (pages_partition_the_results forty_five Hipp)
    as (_ & _ & _ & Hbeyond).
  split_and!; [reflexivity|reflexivity|].
  apply Hbeyond. reflexivity.
Defined.



End Pages.

Section Summary.
Import Js Results ResultsMore ResultsData FiltersData.

Implicit Types (st : ResultsManager) (r : result).

Lemma foldl_score_bounds (lo hi : Z) (rs : list result) (acc : Z) :
  (∀ r, r ∈ rs → lo ≤ score r ≤ hi) →
  acc + lo * Z.of_nat (length rs)
  ≤ foldl (λ sum r, sum + score r) acc rs
  ≤ acc + hi * Z.of_nat (length rs).
Proof.
  revert acc. induction rs as [|r rs IH]; intros acc Hall; simpl; [lia|].
  pose proof (Hall r ltac:(left)) as Hr.
  specialize (IH (acc + score r) ltac:(intros r' ?; apply Hall; by right)).
  lia.
Qed.

Lemma Math_round_between (x : Q) (lo hi : Z) :
  (inject_Z lo <= x)%Q → (x <= inject_Z hi)%Q → lo ≤ Math_round x ≤ hi.
Proof.
  intros Hlo Hhi. destruct (Math_round_bounds x) as [H1 H2]. split.
  - destruct (Z_le_gt_dec lo (Math_round x)) as [|Hgt]; [done|].
    assert (Math_round x + 1 <= lo) as H by lia.
    rewrite Zle_Qle, inject_Z_plus in H.
    change (inject_Z 1) with 1%Q in H. lra.
  - destruct (Z_le_gt_dec (Math_round x) hi) as [|Hgt]; [done|].
    assert (hi + 1 <= Math_round x) as H by lia.
    rewrite Zle_Qle, inject_Z_plus in H.
    change (inject_Z 1) with 1%Q in H. lra.
Qed.

(** X13.  The average score of the summary is 0 for an empty table and
    otherwise lies between the lowest and the highest score shown: if
    every line has a score between [lo] and [hi], so has the average. *)
Theorem average_between_the_scores st (lo hi : Z) :
  (filteredResults st = [] → average st = 0)
  ∧ (filteredResults st ≠ [] →
     (∀ r, r ∈ filteredResults st → lo ≤ score r ≤ hi) →
     lo ≤ average st ≤ hi).
Proof.
  unfold average. split; [by intros ->|].
  intros Hne Hall. destruct (filteredResults st) as [|r rs] eqn:Hrs; [done|].
  set (l := r :: rs) in *.
  pose proof (foldl_score_bounds lo hi l 0 Hall) as [Hlo Hhi].
  set (sum := foldl (λ sum r, sum + score r) 0 l) in *.
  assert (Hlen : 0 < Z.of_nat (length l)) by (simpl; lia).
  set (n := Z.of_nat (length l)) in *.
  assert (Hn : (0 < inject_Z n)%Q) by (by rewrite <- (Zlt_Qlt 0)).
  apply Math_round_between.
  - apply Qle_shift_div_l; [done|].
    rewrite <- inject_Z_mult, <- Zle_Qle. lia.
  - apply Qle_shift_div_r; [done|].
    rewrite <- inject_Z_mult, <- Zle_Qle. lia.
Qed.

Lemma average_between_the_scores_witness :
  average (clearFilters two_posts) = 76
  ∧ 60 ≤ average (clearFilters two_posts) ≤ 92.
Proof.
  split; [reflexivity|].
  apply (average_between_the_scores (clearFilters two_posts) 60 92);
    [discriminate|].
  intros r Hr. vm_compute in Hr.
  repeat (apply elem_of_cons in Hr as [->|Hr]; [vm_compute; split; discriminate|]).
  by apply elem_of_nil in Hr.
Defined.

End Summary.
Section FilterOptions.
Import Js Results ResultsMore ResultsData FiltersData.

Implicit Types (st : ResultsManager) (r : result).

Lemma first_occurrences (xs seen : list string) :
  NoDup seen →
  NoDup (foldl (λ seen x, if bool_decide (x ∈ seen) then seen
                          else seen ++ [x]) seen xs)
  ∧ ∀ x, x ∈ foldl (λ seen x, if bool_decide (x ∈ seen) then seen
                              else seen ++ [x]) seen xs
         ↔ x ∈ seen ∨ x ∈ xs.
Proof.
  revert seen. induction xs as [|y xs IH]; intros seen Hnd; simpl.
  { split; [done|]. intros x. rewrite elem_of_nil. tauto. }
  case_bool_decide as Hy.
  - destruct (IH seen Hnd) as [H1 H2]. split; [done|].
    intros x. rewrite H2, elem_of_cons.
    split; [tauto|]. intros [?|[->|?]]; tauto.
  - assert (NoDup (seen ++ [y])) as Hnd'.
    { apply NoDup_app. split_and!; [done| |apply NoDup_singleton].
      intros x Hx ->%list_elem_of_singleton. done. }
    destruct (IH _ Hnd') as [H1 H2]. split; [done|].
    intros x. rewrite H2, elem_of_app, list_elem_of_singleton, elem_of_cons.
    tauto.
Qed.

(** X17.  The post filter offers every post of the loaded results once:
    no option is repeated, a post is offered exactly when some loaded
    line has it, and choosing an offered post with the other filters
    clear never shows an empty table; unless the post is the empty
    string, every line then shown has the post chosen. *)
Theorem poste_options_cover_the_results st :
  NoDup (poste_options st)
  ∧ (∀ p, p ∈ poste_options st ↔ ∃ r, r ∈ results st ∧ poste r = p)
  ∧ (∀ p, p ∈ poste_options st →
       filteredResults (setPosteFilter p (clearFilters st)) ≠ []
       ∧ (p ≠ "" →
          ∀ r, r ∈ filteredResults (setPosteFilter p (clearFilters st)) →
               poste r = p)).
Proof.
  unfold poste_options, in_order_of_first_occurrence.
  destruct (first_occurrences (poste <$> results st) [] (NoDup_nil_2))
    as [Hnd Hin].
  assert (∀ p, p ∈ foldl (λ seen x, if bool_decide (x ∈ seen) then seen
                                     else seen ++ [x]) []
                       (poste <$> results st)
               ↔ ∃ r, r ∈ results st ∧ poste r = p) as Hiff.
  { intros p. rewrite Hin, list_elem_of_fmap, elem_of_nil.
    split.
    - intros [[]|(r & -> & Hr)]. by exists r.
    - intros (r & Hr & <-). right. by exists r. }
  split_and!; [done|done|].
  intros p (r & Hr & Hp)%Hiff. split.
  - intros Hnil.
    assert (r ∈ filteredResults (setPosteFilter p (clearFilters st)))
      as Hr'.
    { simpl. apply list_elem_of_filter. split; [|done].
      unfold keeps. simpl. rewrite Hp.
      rewrite (bool_decide_eq_true_2 (p = p)) by done.
      by rewrite orb_true_r. }
    rewrite Hnil in Hr'. by apply elem_of_nil in Hr'.
  - intros Hne r' [Hk _]%list_elem_of_filter.
    unfold keeps in Hk. simpl in Hk.
    rewrite (bool_decide_eq_false_2 (p = "")) in Hk by done.
    simpl in Hk. by apply bool_decide_eq_true in Hk.
Qed.

Lemma poste_options_cover_the_results_witness :
  poste_options two_posts = ["Cariste"; "Soudeur"]
  ∧ filteredResults (setPosteFilter "Cariste" (clearFilters two_posts))
    ≠ []
  ∧ ∀ r, r ∈ filteredResults
               (setPosteFilter "Cariste" (clearFilters two_posts)) →
         poste r = "Cariste".
Proof.
  split; [reflexivity|].
  destruct (poste_options_cover_the_results two_posts) as (_ & _ & H).
  destruct (H "Cariste") as [H1 H2].
  { vm_compute. left. }
  split; [exact H1|]. apply H2. discriminate.
Defined.

Lemma narrower_filters_keep_less (f g : filters) (rs : list result) :
  (∀ r, keeps g r = true → keeps f r = true) →
  filter (λ r, keeps g r = true) rs
  `sublist_of` filter (λ r, keeps f r = true) rs.
Proof.
  intros Hfg. induction rs as [|r rs IH]; [done|].
  rewrite !filter_cons. case_decide as Hk.
  - rewrite decide_True by (by apply Hfg). by apply sublist_skip.
  - case_decide; [by apply sublist_cons|done].
Qed.

(** X18.  The three filters work together on the loaded results, not
    on what the table showed before: filtering twice changes nothing,
    the status and the post filters can be set in either order, and
    setting a filter that was clear only takes lines away from a table
    that was filtered. *)
Theorem filters_combine st (v : string) :
  applyFilters (applyFilters st) = applyFilters st
  ∧ (∀ p, setStatusFilter v (setPosteFilter p st)
          = setPosteFilter p (setStatusFilter v st))
  ∧ (f_score (rfilters st) = "" →
     filteredResults (setScoreFilter v (applyFilters st))
     `sublist_of` filteredResults (applyFilters st))
  ∧ (f_status (rfilters st) = "" →
     filteredResults (setStatusFilter v (applyFilters st))
     `sublist_of` filteredResults (applyFilters st))
  ∧ (f_poste (rfilters st) = "" →
     filteredResults (setPosteFilter v (applyFilters st))
     `sublist_of` filteredResults (applyFilters st)).
Proof.
  split_and!; [done|done|..]; intros Hclear; simpl;
    apply narrower_filters_keep_less; intros r; unfold keeps; simpl;
    rewrite Hclear; simpl.
  - intros [[_ H2]%andb_prop H3]%andb_prop. by rewrite H2, H3.
  - intros [[H1 _]%andb_prop H3]%andb_prop. by rewrite H1, H3.
  - intros [[H1 H2]%andb_prop _]%andb_prop. by rewrite H1, H2.
Qed.

Lemma filters_combine_witness :
  filteredResults (setStatusFilter "bon" (applyFilters two_posts))
  `sublist_of` filteredResults (applyFilters two_posts)
  ∧ filteredResults (setScoreFilter "75" (applyFilters two_posts))
    `sublist_of` filteredResults (applyFilters two_posts).
Proof.
  destruct (filters_combine two_posts "bon") as (_ & _ & _ & H & _).
  destruct (filters_combine two_posts "75") as (_ & _ & H' & _).
  split; [apply H|apply H']; reflexivity.
Defined.

End FilterOptions.

Section Contact.
Import Js Results ResultsMore ResultsData ContactData.

Implicit Types (st : ResultsManager) (r : result) (m : api_matching).

Lemma or_else_served (x : option string) (fallback a : string) :
  or_else x fallback = a → a ≠ fallback → x = Some a ∧ a ≠ "".
Proof.
  unfold or_else. destruct x as [s|]; [|congruence].
  case_bool_decide; [congruence|]. intros -> _. done.
Qed.

(** X19.  The candidate opened from the table is a loaded line with
    the identifier asked for, and contacting them only ever uses
    what was served: a mail link needs the method "email" and goes to
    the served address, a telephone link needs the method "phone" and
    the served number, neither is empty nor the placeholder "N/A", and
    in every other case the page says that no contact details are
    available. *)
Theorem contact_uses_served_details (ms : list api_matching) st
    (ident method : string) r :
  showCandidateDetails ident (processMatchings ms st) = Some r →
  (∃ m, m ∈ ms ∧ m_id m = ident ∧ r = process m
        ∧ match contactCandidate method (Some r) with
          | Some (Mailto a subject) =>
              method = "email" ∧ m_email m = Some a
              ∧ a ≠ "" ∧ a ≠ "N/A"
              ∧ subject = "Opportunité: " +:+ poste r
          | Some (Tel n) =>
              method = "phone" ∧ m_telephone m = Some n
              ∧ n ≠ "" ∧ n ≠ "N/A"
          | Some Unavailable =>
              (method = "email" → email r = "N/A")
              ∧ (method = "phone" → telephone r = "N/A")
          | None => False
          end).
Proof.
  unfold showCandidateDetails. simpl.
  destruct (list_find _ _) as [[i r']|] eqn:Hfind; [|done].
  intros [= ->].
  apply list_find_Some in Hfind as (Hi & Hid & _).
  apply list_lookup_fmap_Some in Hi as (m & -> & Hm).
  exists m. split_and!; [by eapply list_elem_of_lookup_2|done|done|].
  unfold contactCandidate.
  destruct (bool_decide (method = "email")) eqn:He; simpl.
  - apply bool_decide_eq_true in He as ->.
    case_bool_decide as Hna; simpl.
    + split; [done|]. discriminate.
    + destruct (or_else_served _ _ _ eq_refl Hna) as [? ?].
      by split_and!.
  - apply bool_decide_eq_false in He.
    destruct (bool_decide (method = "phone")) eqn:Hp; simpl.
    2: { apply bool_decide_eq_false in Hp. done. }
    apply bool_decide_eq_true in Hp as ->.
    case_bool_decide as Hna; simpl; [done|].
    destruct (or_else_served _ _ _ eq_refl Hna) as [? ?].
    by split_and!.
Qed.

Lemma contact_uses_served_details_witness :
  contactCandidate "email" (Some (process served_ann))
  = Some (Mailto "ann@example.org" "Opportunité: N/A")
  ∧ ∃ m, m ∈ [served_ann] ∧ m_id m = "m1".
Proof.
  split; [reflexivity|].
  destruct (contact_uses_served_details [served_ann] new "m1" "email"
              (process served_ann) eq_refl) as (m & Hm & Hid & _).
  by exists m.
Defined.

(** X20.  Loading all results keeps, need after need, the matchings of
    the needs that announce some and whose request succeeds: every line
    comes from such a need and carries its post, the table shows all
    the lines loaded, a need that announces no matching or whose
    request fails adds nothing, and when the list of needs cannot be
    read the table is empty. *)
Theorem loadAllResults_collects_needs
    (fetch : string → option (list api_matching)) st :
  (∀ bs r, r ∈ results (loadAllResults (Some bs) fetch st) →
     ∃ b ms m, b ∈ bs ∧ 0 < b_nb_matchings b
               ∧ fetch (b_id b) = Some ms ∧ m ∈ ms
               ∧ r = process (with_besoin_info b m)
               ∧ poste r = or_else (b_poste_recherche b) "N/A")
  ∧ (∀ bs b ms m, b ∈ bs → 0 < b_nb_matchings b →
       fetch (b_id b) = Some ms → m ∈ ms →
       process (with_besoin_info b m)
       ∈ results (loadAllResults (Some bs) fetch st))
  ∧ (∀ bs, filteredResults (loadAllResults (Some bs) fetch st)
           = results (loadAllResults (Some bs) fetch st))
  ∧ (∀ bs1 b bs2,
       b_nb_matchings b ≤ 0 ∨ fetch (b_id b) = None →
       results (loadAllResults (Some (bs1 ++ b :: bs2)) fetch st)
       = results (loadAllResults (Some (bs1 ++ bs2)) fetch st))
  ∧ results (loadAllResults None fetch st) = []
  ∧ filteredResults (loadAllResults None fetch st) = [].
Proof.
  split_and!; try done.
  - intros bs r. simpl.
    intros (m' & -> & (b & Hm' & Hb)%list_elem_of_bind)%list_elem_of_fmap.
    unfold matchings_of in Hm'.
    destruct (0 <? b_nb_matchings b) eqn:Hnb;
      [|by apply elem_of_nil in Hm'].
    apply Z.ltb_lt in Hnb.
    destruct (fetch (b_id b)) as [ms|] eqn:Hf;
      [|by apply elem_of_nil in Hm'].
    apply list_elem_of_fmap in Hm' as (m & -> & Hm).
    by exists b, ms, m.
  - intros bs b ms m Hb Hnb Hf Hm. simpl.
    apply list_elem_of_fmap. exists (with_besoin_info b m).
    split; [done|]. apply list_elem_of_bind. exists b. split; [|done].
    unfold matchings_of. apply Z.ltb_lt in Hnb. rewrite Hnb, Hf.
    apply list_elem_of_fmap. by exists m.
  - intros bs1 b bs2 Hb. simpl. f_equal.
    rewrite !bind_app, bind_cons.
    assert (matchings_of fetch b = []) as ->; [|done].
    unfold matchings_of. destruct Hb as [Hnb|Hf].
    + apply Z.ltb_ge in Hnb. by rewrite Hnb.
    + rewrite Hf. by destruct (0 <? _).
Qed.

Lemma loadAllResults_collects_needs_witness :
  results (loadAllResults (Some [need_1; need_2]) serve new)
  = results (loadAllResults (Some [need_1]) serve new)
  ∧ process (with_besoin_info need_1 served_ann)
    ∈ results (loadAllResults (Some [need_1; need_2]) serve new).
Proof.
  destruct (loadAllResults_collects_needs serve new)
    as (_ & Hin & _ & Hskip & _).
  split.
  - apply (Hskip [need_1] need_2 []). left. vm_compute. discriminate.
  - apply (Hin [need_1; need_2] need_1 [served_ann] served_ann).
    + left.
    + reflexivity.
    + reflexivity.
    + left.
Defined.

End Contact.
